(** * convert_ontologies.py: a shallow embedding and its verified properties

    The script [ontology/scripts/convert_ontologies.py] parses ontology
    files with rdflib, re-serialises them and renders an HTML catalogue.
    This development embeds the script's own functions and proves the
    properties its specification states about them.

    Layout: Python values and effects, the rdflib and platform
    interfaces the script calls into, the script's functions (one
    definition per source function, same names), then the lemmas. *)

From Stdlib Require Import String Ascii List Sorting.Sorted Structures.OrdersEx.
From stdpp Require Import base option list gmap sets strings sorting pretty.

Local Open Scope string_scope.

(** ** Python values *)

(** Outcome of a Python call: a value, or a raised exception.  Only the
    exceptions the script raises itself are told apart; anything raised
    inside a library call is an [ExternalError] (an [Exception] subclass). *)
Inductive exn : Type :=
  | ValueError (msg : string)
  | FileNotFoundError (msg : string)
  | ExternalError (origin : string).

Inductive result (A : Type) : Type :=
  | Ok (a : A)
  | Raise (e : exn).
Arguments Ok {A} a.
Arguments Raise {A} e.

(** A library call either returns ([Some]) or raises ([None]). *)
Definition call {A} (origin : string) (o : option A) : result A :=
  match o with
  | Some a => Ok a
  | None => Raise (ExternalError origin)
  end.

(** [try: body / except Exception: handler].  Every [exn] above is an
    [Exception], so the handler takes over whenever the body raises. *)
Definition try_except {A} (body : result A) (handler : result A) : result A :=
  match body with
  | Ok a => Ok a
  | Raise _ => handler
  end.

(** ** RDF terms (rdflib.term) *)

Record Literal : Type := mkLiteral {
  lexical : string;
  language : option string;
  datatype : option string
}.

Inductive Node : Type :=
  | URIRef (iri : string)
  | BNode (id : string)
  | Lit (l : Literal).

(** [isinstance(x, Literal)] and [isinstance(x, URIRef)]. *)
Definition is_Literal (x : Node) : bool :=
  match x with Lit _ => true | _ => false end.

Definition is_URIRef (x : Node) : bool :=
  match x with URIRef _ => true | _ => false end.

(** [str(x)]: every rdflib term is a [str] subclass holding its text. *)
Definition str (x : Node) : string :=
  match x with
  | URIRef s => s
  | BNode s => s
  | Lit l => lexical l
  end.

(** [v.language] of a term that passed [isinstance(v, Literal)]. *)
Definition node_language (x : Node) : option string :=
  match x with
  | Lit l => language l
  | _ => None
  end.

#[global] Instance Literal_eq_dec : EqDecision Literal.
Proof. solve_decision. Defined.

#[global] Instance Node_eq_dec : EqDecision Node.
Proof. solve_decision. Defined.

Definition Literal_to_tuple (l : Literal) : string * option string * option string :=
  (lexical l, language l, datatype l).

Definition Literal_of_tuple (t : string * option string * option string) : Literal :=
  mkLiteral t.1.1 t.1.2 t.2.

#[global] Instance Literal_countable : Countable Literal.
Proof. by apply (inj_countable' Literal_to_tuple Literal_of_tuple); intros []. Defined.

Definition Node_to_sum (x : Node) : string + string + Literal :=
  match x with
  | URIRef s => inl (inl s)
  | BNode s => inl (inr s)
  | Lit l => inr l
  end.

Definition Node_of_sum (x : string + string + Literal) : Node :=
  match x with
  | inl (inl s) => URIRef s
  | inl (inr s) => BNode s
  | inr l => Lit l
  end.

#[global] Instance Node_countable : Countable Node.
Proof. by apply (inj_countable' Node_to_sum Node_of_sum); intros []. Defined.

Definition Triple : Type := Node * Node * Node.

(** ** Vocabulary (rdflib.namespace) *)

Definition RDF_ns : string := "http://www.w3.org/1999/02/22-rdf-syntax-ns#".
Definition RDFS_ns : string := "http://www.w3.org/2000/01/rdf-schema#".
Definition OWL_ns : string := "http://www.w3.org/2002/07/owl#".
Definition SKOS_ns : string := "http://www.w3.org/2004/02/skos/core#".
Definition DCTERMS_ns : string := "http://purl.org/dc/terms/".

Definition RDF_type : Node := URIRef (RDF_ns ++ "type").
Definition RDF_Property : Node := URIRef (RDF_ns ++ "Property").
Definition RDFS_label : Node := URIRef (RDFS_ns ++ "label").
Definition RDFS_comment : Node := URIRef (RDFS_ns ++ "comment").
Definition RDFS_subClassOf : Node := URIRef (RDFS_ns ++ "subClassOf").
Definition RDFS_subPropertyOf : Node := URIRef (RDFS_ns ++ "subPropertyOf").
Definition RDFS_domain : Node := URIRef (RDFS_ns ++ "domain").
Definition RDFS_range : Node := URIRef (RDFS_ns ++ "range").
Definition OWL_Ontology : Node := URIRef (OWL_ns ++ "Ontology").
Definition OWL_Class : Node := URIRef (OWL_ns ++ "Class").
Definition OWL_ObjectProperty : Node := URIRef (OWL_ns ++ "ObjectProperty").
Definition OWL_DatatypeProperty : Node := URIRef (OWL_ns ++ "DatatypeProperty").
Definition OWL_inverseOf : Node := URIRef (OWL_ns ++ "inverseOf").
Definition SKOS_definition : Node := URIRef (SKOS_ns ++ "definition").
Definition SKOS_example : Node := URIRef (SKOS_ns ++ "example").
Definition DCTERMS_title : Node := URIRef (DCTERMS_ns ++ "title").
Definition DCTERMS_description : Node := URIRef (DCTERMS_ns ++ "description").

(** ** Python strings and sorting *)

(** [a < b] on [str]: lexicographic on code points, which is the
    lexicographic order of the UTF-8 bytes a Rocq string holds. *)
Definition str_lt (a b : string) : bool :=
  match String_as_OT.compare a b with Lt => true | _ => false end.

(** [a < b] on 2-tuples of [str]: the first differing component decides. *)
Definition tuple_lt (a b : string * string) : bool :=
  if decide (a.1 = b.1) then str_lt a.2 b.2 else str_lt a.1 b.1.

(** Ascending order, on strings and on 2-tuples of strings. *)
Definition str_le (a b : string) : Prop :=
  a = b ∨ String_as_OT.lt a b.

Definition tuple_le (a b : string * string) : Prop :=
  String_as_OT.lt a.1 b.1 ∨ (a.1 = b.1 ∧ str_le a.2 b.2).

(** [list.sort(key=...)] and [sorted(..., key=...)] are stable and compare
    keys with [<] only.  A stable sort has one possible result, so the
    insertion sort below returns what Python's sort returns: an element
    goes in front of the first element that is not smaller than it. *)
Section py_sort.
Context {A K : Type} (lt : K → K → bool) (key : A → K).

Fixpoint sort_insert (x : A) (l : list A) : list A :=
  match l with
  | [] => [x]
  | y :: l' => if lt (key y) (key x) then y :: sort_insert x l' else x :: y :: l'
  end.

Definition py_sort (l : list A) : list A := foldr sort_insert [] l.
End py_sort.

(** [s.endswith(suffix)] *)
Definition endswith (s suffix : string) : bool :=
  let n := String.length s in
  let m := String.length suffix in
  bool_decide (m ≤ n)%nat && bool_decide (substring (n - m) m s = suffix).

(** [s.lstrip(".")] *)
Fixpoint lstrip_dot (s : string) : string :=
  match s with
  | String "." s' => lstrip_dot s'
  | _ => s
  end.

(** [str.lower] on ASCII text: the letters A-Z move to a-z, every other
    byte stays.  Python's [str.lower] agrees with it on ASCII strings. *)
Definition ascii_lower_char (c : ascii) : ascii :=
  let n := nat_of_ascii c in
  if bool_decide (65 ≤ n)%nat && bool_decide (n ≤ 90)%nat then ascii_of_nat (n + 32) else c.

Fixpoint ascii_lower (s : string) : string :=
  match s with
  | EmptyString => EmptyString
  | String c s' => String (ascii_lower_char c) (ascii_lower s')
  end.

Definition is_ascii (s : string) : Prop :=
  Forall (λ c, (nat_of_ascii c < 128)%nat) (list_ascii_of_string s).

(** ** The rdflib interface

    The script keeps no namespace table of its own: it asks the graph's
    [namespace_manager].  Its methods are library code, so they stay
    abstract; [None] stands for a raised exception. *)
Class Rdflib : Type := {
  NamespaceManager : Type;
  (** [nm.normalizeUri(term)]; it reads the bindings and leaves them *)
  normalizeUri : NamespaceManager → Node → option string;
  (** [nm.compute_qname(term)], a triple [(prefix, namespace, name)];
      the call may bind a prefix of its own making, hence the manager
      it leaves *)
  compute_qname : NamespaceManager → Node
                  → NamespaceManager * option (option string * string * string);
  (** [nm.namespaces()], the bound [(prefix, namespace)] pairs *)
  namespaces : NamespaceManager → list (string * string);
  (** [nm.bind(prefix, namespace, replace=...)]: the manager after the
      call, and whether the call returned ([true]) or raised ([false]) *)
  nm_bind : NamespaceManager → string → string → bool → NamespaceManager * bool;
  (** [Literal.__bool__] *)
  Literal_bool : Literal → bool
}.

(** A [Graph]: its triples in the store's iteration order, and its
    namespace manager. *)
Record Graph `{Rdflib} : Type := mkGraph {
  triples : list Triple;
  namespace_manager : NamespaceManager
}.
Arguments mkGraph {_} triples namespace_manager.

(** ** The dataclasses (lines 34-62) *)

Module OntologyHeader.
Record t : Type := mk {
  iri : option string;
  title : option string;
  description : option string
}.
End OntologyHeader.

Module ClassInfo.
Record t : Type := mk {
  iri : string;
  qname : string;
  label : string;
  definitions : list Node;
  comments : list Node;
  examples : list Node;
  subClassOf : list string
}.
End ClassInfo.

Module PropertyInfo.
Record t : Type := mk {
  iri : string;
  qname : string;
  label : string;
  kind : string;
  comments : list Node;
  domain : list string;
  range : list string;
  subPropertyOf : list string;
  inverses : list string
}.
End PropertyInfo.

(** One entry of [compute_used_prefixes]: [{"prefix": ..., "ns": ...}]. *)
Record PrefixEntry : Type := mkPrefixEntry {
  entry_prefix : string;
  entry_ns : string
}.

(** [FORMAT_BY_EXT] (lines 24-31); [FORMAT_BY_EXT.get(k)] is [!! k]. *)
Definition FORMAT_BY_EXT : gmap string string :=
  <[".xml" := "xml"]> (<[".rdf" := "xml"]> (<[".owl" := "xml"]>
  (<[".json" := "json-ld"]> (<[".jsonld" := "json-ld"]> (<[".ttl" := "turtle"]> ∅))))).

(** ** The metadata extractor *)

Section extractor.
Context `{Rdflib}.
(** [str.lower], over arbitrary (non-ASCII) text *)
Variable str_lower : string → string.

(** [graph.subjects(p, o)], [graph.objects(s, p)], [(s, p, o) in graph] *)
Definition subjects (g : Graph) (p o : Node) : list Node :=
  (λ t : Triple, t.1.1) <$> filter (λ t : Triple, t.1.2 = p ∧ t.2 = o) (triples g).

Definition objects (g : Graph) (s p : Node) : list Node :=
  (λ t : Triple, t.2) <$> filter (λ t : Triple, t.1.1 = s ∧ t.1.2 = p) (triples g).

Definition contains (g : Graph) (t : Triple) : bool :=
  bool_decide (t ∈ triples g).

(** Truth value of a term in [if x:] and [a if x else b]: a [Literal]
    answers through [__bool__], any other term as the [str] it is. *)
Definition truthy (x : Node) : bool :=
  match x with
  | Lit l => Literal_bool l
  | _ => bool_decide (str x ≠ "")
  end.

(** The dict comprehension [{v.language: v for v in values if
    isinstance(v, Literal)}]: later values overwrite earlier ones. *)
Definition by_lang_of (values : list Node) : gmap (option string) Node :=
  foldl (λ m v, <[node_language v := v]> m) ∅ (filter (λ v, is_Literal v = true) values).

(** The loop [for lang in preferred: if lang in by_lang: return ...]. *)
Fixpoint first_preferred (by_lang : gmap (option string) Node)
    (preferred : list string) : option Node :=
  match preferred with
  | [] => None
  | lang :: rest =>
      match by_lang !! Some lang with
      | Some v => Some v
      | None => first_preferred by_lang rest
      end
  end.

(** lines 140-146 *)
Definition literal_by_lang (values : list Node) (preferred : option (list string))
    : option Node * list Node :=
  let preferred :=
    match preferred with
    | None | Some [] => ["en"]
    | Some l => l
    end in
  let by_lang := by_lang_of values in
  match first_preferred by_lang preferred with
  | Some v => (Some v, values)
  | None => (head values, values)
  end.

(** lines 149-153, with the exception flow spelled out *)
Definition qname_result (graph : Graph) (term : Node) : result string :=
  try_except
    (call "normalizeUri" (normalizeUri (namespace_manager graph) term))
    (Ok (str term)).

(** lines 149-153: the value [qname] hands to its callers *)
Definition qname (graph : Graph) (term : Node) : string :=
  match normalizeUri (namespace_manager graph) term with
  | Some s => s
  | None => str term
  end.

(** lines 156-157 *)
Definition get_literals (graph : Graph) (s p : Node) : list Node :=
  filter (λ o, is_Literal o = true) (objects graph s p).

(** lines 160-176 *)
Definition collect_ontology_info (g : Graph) : OntologyHeader.t :=
  let ontologies := subjects g RDF_type OWL_Ontology in
  match ontologies with
  | [] => OntologyHeader.mk None None None
  | ont :: _ =>
      let titles := get_literals g ont DCTERMS_title in
      let title_literal := (literal_by_lang titles None).1 in
      let descriptions := get_literals g ont DCTERMS_description in
      let desc_literal := (literal_by_lang descriptions None).1 in
      OntologyHeader.mk
        (Some (str ont))
        (match title_literal with
         | Some v => if truthy v then Some (str v) else None
         | None => None
         end)
        (match desc_literal with
         | Some v => if truthy v then Some (str v) else None
         | None => None
         end)
  end.

(** The [[qname(g, o) for o in g.objects(s, p) if isinstance(o, URIRef)]]
    comprehension of lines 194 and 219-221. *)
Definition qnames_of_objects (g : Graph) (s p : Node) : list string :=
  qname g <$> filter (λ o, is_URIRef o = true) (objects g s p).

(** The display label of lines 183-185 and 216-218. *)
Definition display_label (g : Graph) (s : Node) : string :=
  let labels := get_literals g s RDFS_label in
  let label_literal := (literal_by_lang labels None).1 in
  match label_literal with
  | Some v => if truthy v then str v else qname g s
  | None => qname g s
  end.

(** lines 183-196: the descriptor built for one class subject *)
Definition class_info (g : Graph) (s : Node) : ClassInfo.t :=
  ClassInfo.mk
    (str s)
    (qname g s)
    (display_label g s)
    (get_literals g s SKOS_definition)
    (get_literals g s RDFS_comment)
    (get_literals g s SKOS_example)
    (qnames_of_objects g s RDFS_subClassOf).

(** The sort key of line 197. *)
Definition class_key (x : ClassInfo.t) : string * string :=
  (str_lower (ClassInfo.label x), ClassInfo.qname x).

(** line 180: the set of class subjects.  Iterating a Python set
    visits its members once each, in an order the language leaves
    open; [elements] plays that part, and no lemma below depends on
    which order it is. *)
Definition class_subjects (g : Graph) : gset Node :=
  list_to_set (subjects g RDF_type OWL_Class).

(** lines 181-198, for the order [order] in which the [for] loop visits
    the set *)
Definition collect_classes_in (g : Graph) (order : list Node) : list ClassInfo.t :=
  py_sort tuple_lt class_key (class_info g <$> order).

(** lines 179-198 *)
Definition collect_classes (g : Graph) : list ClassInfo.t :=
  collect_classes_in g (elements (class_subjects g)).

(** The three kinds a property descriptor can have, and the tag
    [property_kind] writes for each. *)
Inductive Kind : Type :=
  | ObjectProperty
  | DatatypeProperty
  | GenericProperty.

Definition kind_tag (k : Kind) : string :=
  match k with
  | ObjectProperty => "ObjectProperty"
  | DatatypeProperty => "DatatypeProperty"
  | GenericProperty => "Property"
  end.

(** lines 201-206 *)
Definition property_kind (g : Graph) (term : Node) : string :=
  if contains g (term, RDF_type, OWL_ObjectProperty) then "ObjectProperty"
  else if contains g (term, RDF_type, OWL_DatatypeProperty) then "DatatypeProperty"
  else "Property".

(** lines 222-223: the set of inverse partners of [s] *)
Definition inverses_set (g : Graph) (s : Node) : gset Node :=
  list_to_set (filter (λ o, is_URIRef o = true) (objects g s OWL_inverseOf))
  ∪ list_to_set (filter (λ x, is_URIRef x = true) (subjects g OWL_inverseOf s)).

(** line 224 *)
Definition inverses_of (g : Graph) (s : Node) : list string :=
  qname g <$> py_sort str_lt (qname g) (elements (inverses_set g s)).

(** lines 216-238: the descriptor built for one property subject *)
Definition property_info (g : Graph) (s : Node) : PropertyInfo.t :=
  PropertyInfo.mk
    (str s)
    (qname g s)
    (display_label g s)
    (property_kind g s)
    (get_literals g s RDFS_comment)
    (qnames_of_objects g s RDFS_domain)
    (qnames_of_objects g s RDFS_range)
    (qnames_of_objects g s RDFS_subPropertyOf)
    (inverses_of g s).

(** The sort key of line 239. *)
Definition property_key (x : PropertyInfo.t) : string * string :=
  (str_lower (PropertyInfo.label x), PropertyInfo.qname x).

(** lines 210-212: the set of property subjects *)
Definition property_subjects (g : Graph) : gset Node :=
  list_to_set (subjects g RDF_type OWL_ObjectProperty)
  ∪ list_to_set (subjects g RDF_type OWL_DatatypeProperty)
  ∪ list_to_set (subjects g RDF_type RDF_Property).

(** A subject carries one of the three property-kind type assertions. *)
Definition typed_as_property (g : Graph) (s : Node) : Prop :=
  (s, RDF_type, OWL_ObjectProperty) ∈ triples g
  ∨ (s, RDF_type, OWL_DatatypeProperty) ∈ triples g
  ∨ (s, RDF_type, RDF_Property) ∈ triples g.

Definition collect_properties_in (g : Graph) (order : list Node) : list PropertyInfo.t :=
  py_sort tuple_lt property_key (property_info g <$> order).

(** lines 209-240 *)
Definition collect_properties (g : Graph) : list PropertyInfo.t :=
  collect_properties_in g (elements (property_subjects g)).

(** lines 123-131: one term of the loop over the graph.  The manager is
    threaded through, and a call that raises is skipped. *)
Definition used_prefixes_step (acc : NamespaceManager * gset string) (term : Node)
    : NamespaceManager * gset string :=
  if is_URIRef term then
    match compute_qname acc.1 term with
    | (nm, Some (Some prefix, _, _)) => (nm, {[prefix]} ∪ acc.2)
    | (nm, _) => (nm, acc.2)
    end
  else acc.

(** lines 120-137 *)
Definition compute_used_prefixes (g : Graph) : list PrefixEntry :=
  let terms := flat_map (λ t : Triple, [t.1.1; t.1.2; t.2]) (triples g) in
  let r := foldl used_prefixes_step (namespace_manager g, ∅) terms in
  py_sort str_lt entry_prefix
    ((λ b : string * string,
        mkPrefixEntry (if bool_decide (b.1 = "") then ":" else b.1) b.2)
     <$> filter (λ b : string * string, b.1 ∈ r.2) (namespaces r.1)).
End extractor.

(** ** The platform interface

    Paths are identified with their text.  What pathlib, the file
    system, argparse, jinja2 and rdflib's parsers and serialisers do is
    abstract; an operation that can raise says so in its result
    ([None], or [false] next to the file system it leaves behind). *)
Definition Path : Type := string.

(** [argparse.Namespace] as [parse_args] fills it (lines 65-90). *)
Record Namespace : Type := mkNamespace {
  source_dir : Path;
  deployment_dir : Path;
  basis : string;
  template : Path
}.

(** The named values handed to [tmpl.render] (lines 267-274). *)
Record TemplateArgs : Type := mkTemplateArgs {
  arg_ontology : OntologyHeader.t;
  arg_classes : list ClassInfo.t;
  arg_properties : list PropertyInfo.t;
  arg_prefixes : list PrefixEntry;
  arg_base_name : string;
  arg_source_path : Path
}.

Class Platform `{Rdflib} : Type := {
  FS : Type;
  Template : Type;
  (** pathlib *)
  suffix : Path → string;
  stem : Path → string;
  name : Path → string;
  parent : Path → Path;
  joinpath : Path → string → Path;
  relative_to : Path → Path → option Path;
  path_lt : Path → Path → bool;
  resolve : FS → Path → Path;
  path_exists : FS → Path → bool;
  rglob : FS → Path → string → list Path;
  mkdir : FS → Path → FS * bool;
  write_text : FS → Path → string → FS * bool;
  (** argparse *)
  parse_args : option (list string) → option Namespace;
  (** [Graph().parse(path, format=fmt)] and [graph.serialize(destination=..., format=...)] *)
  parse : FS → Path → string → option Graph;
  serialize : FS → Graph → Path → string → FS * bool;
  (** jinja2: [Environment(loader=FileSystemLoader(dir)).get_template(name)], [tmpl.render(...)] *)
  get_template : FS → Path → string → option Template;
  render : Template → TemplateArgs → option string
}.

(** The world a run acts on: the file system and what was printed. *)
Record World `{Platform} : Type := mkWorld {
  fs : FS;
  stdout : list string
}.
Arguments mkWorld {_ _} fs stdout.

(** ** The loader, the serialiser, the renderer and the driver *)

Section pipeline.
Context `{Platform}.
Variable str_lower : string → string.

(** State and exceptions: a computation maps the world to the world it
    leaves and its outcome. *)
Definition M (A : Type) : Type := World → World * result A.

Definition ret {A} (a : A) : M A := λ w, (w, Ok a).
Definition raise {A} (e : exn) : M A := λ w, (w, Raise e).
Definition bind {A B} (c : M A) (k : A → M B) : M B :=
  λ w, match c w with
       | (w', Ok a) => k a w'
       | (w', Raise e) => (w', Raise e)
       end.

#[local] Instance M_ret : MRet M := @ret.
#[local] Instance M_bind : MBind M := λ A B k c, bind c k.

(** [print(line)] *)
Definition print (line : string) : M unit :=
  λ w, (mkWorld (fs w) (stdout w ++ [line])%list, Ok tt).

(** Reading the file system, and an operation on it that may raise. *)
Definition read_fs {A} (f : FS → A) : M A := λ w, (w, Ok (f (fs w))).

Definition read_result {A} (f : FS → result A) : M A := λ w, (w, f (fs w)).

Definition fs_call {A} (origin : string) (f : FS → option A) : M A :=
  λ w, (w, call origin (f (fs w))).

Definition fs_op (origin : string) (f : FS → FS * bool) : M unit :=
  λ w, let r := f (fs w) in
       (mkWorld r.1 (stdout w),
        if r.2 then Ok tt else Raise (ExternalError origin)).

(** [for x in xs: body(x)] *)
Fixpoint for_each {A} (xs : list A) (body : A → M unit) : M unit :=
  match xs with
  | [] => ret tt
  | x :: xs' => body x ;; for_each xs' body
  end.

Definition set_namespace_manager (g : Graph) (nm : NamespaceManager) : Graph :=
  mkGraph (triples g) nm.

(** line 96-98: the namespace derived from the ontology identifier *)
Definition base_ns (ontology_iri : string) : string :=
  if endswith ontology_iri "#" || endswith ontology_iri "/"
  then ontology_iri
  else ontology_iri ++ "#".

(** lines 93-102; [not ontology_iri] holds for [None] and for the empty
    string, and [except Exception: pass] keeps whatever [bind] left. *)
Definition ensure_default_prefix (g : Graph) (ontology_iri : option string) : Graph :=
  match ontology_iri with
  | None => g
  | Some "" => g
  | Some iri =>
      set_namespace_manager g (nm_bind (namespace_manager g) "" (base_ns iri) false).1
  end.

(** lines 105-117 *)
Definition common : list (string * string) :=
  [("rdf", RDF_ns); ("rdfs", RDFS_ns); ("owl", OWL_ns);
   ("skos", SKOS_ns); ("dcterms", DCTERMS_ns)].

Definition ensure_common_prefixes (graph : Graph) : Graph :=
  foldl (λ g (b : string * string),
           set_namespace_manager g (nm_bind (namespace_manager g) b.1 b.2 false).1)
        graph common.

(** line 244 *)
Definition detect_format (path : Path) : option string :=
  FORMAT_BY_EXT !! str_lower (suffix path).

(** lines 247-252: parse in the detected format, then bind prefixes *)
Definition parse_and_bind (files : FS) (path : Path) (fmt : string) : result Graph :=
  match parse files path fmt with
  | None => Raise (ExternalError "Graph.parse")
  | Some g =>
      let g := ensure_common_prefixes g in
      let header := collect_ontology_info g in
      Ok (ensure_default_prefix g (OntologyHeader.iri header))
  end.

(** The error of line 246. *)
Definition unsupported (path : Path) : exn :=
  ValueError ("Unsupported input extension for " ++ path).

(** lines 243-252 *)
Definition load_graph (files : FS) (path : Path) : result Graph :=
  match detect_format path with
  | None => Raise (unsupported path)
  | Some fmt => parse_and_bind files path fmt
  end.

(** lines 255-276 *)
Definition render_html (graph : Graph) (base_name : string)
    (template_path output_path source_path : Path) : M unit :=
  tmpl ← fs_call "get_template"
           (λ files, get_template files (parent template_path) (name template_path));
  let ontology := collect_ontology_info graph in
  let classes := collect_classes str_lower graph in
  let properties := collect_properties str_lower graph in
  let prefixes := compute_used_prefixes graph in
  html ← fs_call "render"
           (λ _, render tmpl
                   (mkTemplateArgs ontology classes properties prefixes base_name source_path));
  fs_op "mkdir" (λ files, mkdir files (parent output_path)) ;;
  fs_op "write_text" (λ files, write_text files output_path html).

(** lines 279-289; the dict keeps its insertion order *)
Definition serialise_graph (graph : Graph) (dest_dir : Path) (base_name : string)
    : M (list (string * Path)) :=
  fs_op "mkdir" (λ files, mkdir files dest_dir) ;;
  let outputs :=
    [("ttl", joinpath dest_dir (base_name ++ ".ttl"));
     ("jsonld", joinpath dest_dir (base_name ++ ".jsonld"));
     ("owl", joinpath dest_dir (base_name ++ ".owl"))] in
  fs_op "serialize" (λ files, serialize files graph (joinpath dest_dir (base_name ++ ".ttl")) "turtle") ;;
  fs_op "serialize" (λ files, serialize files graph (joinpath dest_dir (base_name ++ ".jsonld")) "json-ld") ;;
  fs_op "serialize" (λ files, serialize files graph (joinpath dest_dir (base_name ++ ".owl")) "xml") ;;
  ret outputs.

(** lines 292-302 *)
Definition convert_file (path source_dir deployment_dir template_path : Path)
    : M (list (string * Path)) :=
  graph ← read_result (λ files, load_graph files path);
  relative ← fs_call "relative_to" (λ _, relative_to path source_dir);
  let base_name := stem relative in
  let dest_dir := joinpath deployment_dir (parent relative) in
  serialised ← serialise_graph graph dest_dir base_name;
  let html_path := joinpath dest_dir (base_name ++ ".html") in
  render_html graph base_name template_path html_path relative ;;
  ret (serialised ++ [("html", html_path)])%list.

(** lines 324-328: one round of the driver's loop *)
Definition convert_and_report (source_dir deployment_dir template_path path : Path)
    : M unit :=
  rel ← fs_call "relative_to" (λ _, relative_to path source_dir);
  print ("- " ++ rel) ;;
  outputs ← convert_file path source_dir deployment_dir template_path;
  for_each outputs (λ o : string * Path,
    out_rel ← fs_call "relative_to" (λ _, relative_to o.2 deployment_dir);
    print ("  • " ++ o.1 ++ ": " ++ out_rel)).

(** Every round of the loop over [paths] completes: each file is
    converted and reported without an exception, taking the world
    from [w] to [w']. *)
Inductive converts_all (source_dir deployment_dir template_path : Path)
    : list Path → World → World → Prop :=
  | converts_all_nil w :
      converts_all source_dir deployment_dir template_path [] w w
  | converts_all_cons path rest w w1 w2 :
      convert_and_report source_dir deployment_dir template_path path w = (w1, Ok tt) →
      converts_all source_dir deployment_dir template_path rest w1 w2 →
      converts_all source_dir deployment_dir template_path (path :: rest) w w2.

(** lines 315-316 *)
Definition discover (files : FS) (source_dir : Path) (basis : string) : list Path :=
  py_sort path_lt id (rglob files source_dir ("*." ++ basis)).

(** The lines printed at lines 318, 321 and 330. *)
Definition no_source_files_line (basis_pattern : string) (source_dir : Path) : string :=
  "No source files matching " ++ basis_pattern ++ " under " ++ source_dir.

Definition converting_line (count : nat) (source_dir : Path) (basis : string) : string :=
  "Converting " ++ pretty count ++ " ontologies from " ++ source_dir
  ++ " using basis '." ++ basis ++ "'...".

Definition finished_line (deployment_dir : Path) : string :=
  "✅ Finished writing artefacts to " ++ deployment_dir.

(** lines 305-331 *)
Definition run (argv : option (list string)) : M Z :=
  args ← fs_call "parse_args" (λ _, parse_args argv);
  source_dir ← read_fs (λ files, resolve files (source_dir args));
  deployment_dir ← read_fs (λ files, resolve files (deployment_dir args));
  let basis := str_lower (lstrip_dot (basis args)) in
  template_path ← read_fs (λ files, resolve files (template args));
  template_found ← read_fs (λ files, path_exists files template_path);
  if negb template_found
  then raise (FileNotFoundError ("Template not found: " ++ template_path))
  else
    let basis_pattern := "*." ++ basis in
    source_files ← read_fs (λ files, discover files source_dir basis);
    match source_files with
    | [] =>
        print (no_source_files_line basis_pattern source_dir) ;;
        ret 1%Z
    | _ =>
        print (converting_line (length source_files) source_dir basis) ;;
        fs_op "mkdir" (λ files, mkdir files deployment_dir) ;;
        for_each source_files (convert_and_report source_dir deployment_dir template_path) ;;
        print (finished_line deployment_dir) ;;
        ret 0%Z
    end.
End pipeline.

(** ** A small platform to run the script on

    An in-memory namespace table and file system implementing the two
    interfaces, so that the definitions above can be evaluated on
    concrete graphs, paths and directory trees. *)
Module Ref.

(** *** Namespace manager: an ordered table of bindings *)

Abbreviation Table := (list (string * string)).

Fixpoint lookup_prefix (nm : Table) (prefix : string) : option string :=
  match nm with
  | [] => None
  | b :: nm' => if bool_decide (b.1 = prefix) then Some b.2 else lookup_prefix nm' prefix
  end.

Fixpoint prefix_of (nm : Table) (ns : string) : option string :=
  match nm with
  | [] => None
  | b :: nm' => if bool_decide (b.2 = ns) then Some b.1 else prefix_of nm' ns
  end.

(** Position of the last occurrence of [c], counted from the left. *)
Fixpoint rfind (c : ascii) (s : string) : option nat :=
  match s with
  | EmptyString => None
  | String d s' =>
      match rfind c s' with
      | Some i => Some (S i)
      | None => if bool_decide (d = c) then Some 0%nat else None
      end
  end.

(** An identifier splits after its last "#" or "/" into a namespace and
    a local name; it does not split when the local name would be empty. *)
Definition split_uri (s : string) : option (string * string) :=
  let cut :=
    match rfind "#" s, rfind "/" s with
    | Some i, Some j => Some (i `max` j)
    | Some i, None => Some i
    | None, Some j => Some j
    | None, None => None
    end in
  match cut with
  | Some i =>
      let local := substring (S i) (String.length s - S i) s in
      if bool_decide (local = "") then None else Some (substring 0 (S i) s, local)
  | None => None
  end.

Definition local_name (ns s : string) : string :=
  substring (String.length ns) (String.length s - String.length ns) s.

(** The first of "ns1", "ns2", ... that is not bound. *)
Fixpoint fresh_prefix (nm : Table) (fuel num : nat) : string :=
  match fuel with
  | O => "ns" ++ pretty num
  | S fuel' =>
      match lookup_prefix nm ("ns" ++ pretty num) with
      | Some _ => fresh_prefix nm fuel' (S num)
      | None => "ns" ++ pretty num
      end
  end.

(** [compute_qname]: the parts of a term whose namespace is bound; a
    namespace that is not bound gets a prefix made for it. *)
Definition qname_parts (nm : Table) (term : Node)
    : Table * option (option string * string * string) :=
  match split_uri (str term) with
  | Some (ns, local) =>
      match prefix_of nm ns with
      | Some p => (nm, Some (Some p, ns, local))
      | None =>
          let p := fresh_prefix nm (length nm) 1 in
          ((nm ++ [(p, ns)])%list, Some (Some p, ns, local))
      end
  | None => (nm, None)
  end.

(** [normalizeUri], as rdflib documents it: the term as a QName, using
    the registered prefix, or else in Notation 3 form, between angle
    brackets.  It does not raise. *)
Definition normalize (nm : Table) (term : Node) : option string :=
  match split_uri (str term) with
  | Some (ns, local) =>
      match prefix_of nm ns with
      | Some p => Some (p ++ ":" ++ local)
      | None => Some ("<" ++ str term ++ ">")
      end
  | None => Some ("<" ++ str term ++ ">")
  end.

(** [" " in prefix] *)
Fixpoint has_space (s : string) : bool :=
  match s with
  | EmptyString => false
  | String c s' => bool_decide (c = " "%char) || has_space s'
  end.

(** The store's [bind(prefix, namespace, override=True)]: the prefix
    that the namespace had is dropped, and the prefix is bound to the
    namespace, in its old place when the table has it and at the end
    otherwise (the table is a Python dict from prefix to namespace). *)
Definition store_bind (nm : Table) (prefix ns : string) : Table :=
  let nm1 :=
    match prefix_of nm ns with
    | Some p => filter (λ b : string * string, b.1 ≠ p) nm
    | None => nm
    end in
  match lookup_prefix nm1 prefix with
  | Some _ =>
      (λ b : string * string, if bool_decide (b.1 = prefix) then (prefix, ns) else b) <$> nm1
  | None => (nm1 ++ [(prefix, ns)])%list
  end.

(** The loop of [bind] over [prefix1], [prefix2], ...: [None] when one
    of them is bound to the namespace already, else the first that is
    not bound or is bound to the empty namespace.  One probe more than
    the table has bindings always finds one. *)
Fixpoint numbered_prefix (nm : Table) (base ns : string) (fuel num : nat) : option string :=
  let new_prefix := base ++ pretty num in
  match lookup_prefix nm new_prefix with
  | None => Some new_prefix
  | Some t =>
      if bool_decide (t = "") then Some new_prefix
      else if bool_decide (t = ns) then None
      else match fuel with
           | O => Some new_prefix
           | S fuel' => numbered_prefix nm base ns fuel' (S num)
           end
  end.

(** [NamespaceManager.bind(prefix, namespace, replace=replace)], with
    [override] at its default [True], after rdflib's code.  A prefix
    bound to another, non-empty namespace is rebound when [replace] is
    set; otherwise it is left and the namespace goes under the first
    free numbered prefix ("default1", ... for the empty prefix).  In
    every other case the namespace is bound to the prefix unless it is
    so already, and loses the prefix it had.  A prefix with a space in
    it raises. *)
Definition bind_prefix (nm : Table) (prefix ns : string) (replace : bool) : Table * bool :=
  if has_space prefix then (nm, false)
  else
    let rebind :=
      match prefix_of nm ns with
      | None => store_bind nm prefix ns
      | Some p => if bool_decide (p = prefix) then nm else store_bind nm prefix ns
      end in
    match lookup_prefix nm prefix with
    | Some bound =>
        if bool_decide (bound ≠ "") && bool_decide (bound ≠ ns)
        then
          if replace then (store_bind nm prefix ns, true)
          else
            match numbered_prefix nm (if bool_decide (prefix = "") then "default" else prefix)
                    ns (length nm) 1 with
            | Some new_prefix => (store_bind nm new_prefix ns, true)
            | None => (nm, true)
            end
        else (rebind, true)
    | None => (rebind, true)
    end.

(** A literal is true when its text is not empty. *)
Definition truth (l : Literal) : bool :=
  bool_decide (lexical l ≠ "").

#[export] Instance rdflib : Rdflib := {|
  NamespaceManager := Table;
  normalizeUri := normalize;
  compute_qname := qname_parts;
  namespaces := λ nm, nm;
  nm_bind := bind_prefix;
  Literal_bool := truth
|}.

(** *** Paths: POSIX flavour *)

Definition path_name (p : Path) : string :=
  match rfind "/" p with
  | Some i => substring (S i) (String.length p - S i) p
  | None => p
  end.

Definition path_parent (p : Path) : Path :=
  match rfind "/" p with
  | Some i => substring 0 i p
  | None => "."
  end.

Definition path_suffix (p : Path) : string :=
  let n := path_name p in
  match rfind "." n with
  | Some i =>
      if bool_decide (0 < i) && bool_decide (i < String.length n - 1)
      then substring i (String.length n - i) n
      else ""
  | None => ""
  end.

Definition path_stem (p : Path) : string :=
  let n := path_name p in
  substring 0 (String.length n - String.length (path_suffix p)) n.

Definition path_join (p : Path) (q : string) : Path :=
  if bool_decide (q = ".") then p else p ++ "/" ++ q.

Definition path_relative_to (p base : Path) : option Path :=
  if String.prefix (base ++ "/") p
  then Some (local_name (base ++ "/") p)
  else None.

(** *** Files *)

Inductive Entry : Type :=
  | Directory
  | Source (content : list Triple)
  | Text (content : string).

Definition Files : Type := gmap Path Entry.

Definition exists_ (files : Files) (p : Path) : bool :=
  bool_decide (is_Some (files !! p)).

Definition is_file (e : Entry) : bool :=
  match e with Directory => false | _ => true end.

(** [dir.rglob("*.ext")]: the files below [dir] whose path_name ends in [.ext] *)
Definition glob (files : Files) (dir : Path) (pattern : string) : list Path :=
  let ext := substring 1 (String.length pattern - 1) pattern in
  fst <$> filter (λ kv : Path * Entry,
                    is_file kv.2 = true
                    ∧ String.prefix (dir ++ "/") kv.1 = true
                    ∧ endswith kv.1 ext = true)
                 (map_to_list files).

(** [make_dirs(parents=True, exist_ok=True)] fails on an existing file. *)
Definition make_dirs (files : Files) (p : Path) : Files * bool :=
  match files !! p with
  | Some Directory => (files, true)
  | Some _ => (files, false)
  | None => (<[p := Directory]> files, true)
  end.

Definition write (files : Files) (p : Path) (content : string) : Files * bool :=
  match files !! p with
  | Some Directory => (files, false)
  | _ => (<[p := Text content]> files, true)
  end.

Definition read_graph (files : Files) (p : Path) (fmt : string) : option Graph :=
  match files !! p with
  | Some (Source ts) => Some (mkGraph ts [])
  | _ => None
  end.

Definition write_graph (files : Files) (g : Graph) (p : Path) (fmt : string) : Files * bool :=
  write files p fmt.

Definition load_template (files : Files) (dir : Path) (n : string) : option string :=
  match files !! path_join dir n with
  | Some (Text t) => Some t
  | _ => None
  end.

Definition render_template (tmpl : string) (args : TemplateArgs) : option string :=
  Some (tmpl ++ arg_base_name args).

(** The command line is taken to hold the four options, in the order
    of [read_args]. *)
Definition read_args (argv : option (list string)) : option Namespace :=
  match argv with
  | Some [s; d; b; t] => Some (mkNamespace s d b t)
  | _ => None
  end.

#[export] Instance platform : Platform := {|
  FS := Files;
  Template := string;
  suffix := path_suffix;
  stem := path_stem;
  name := path_name;
  parent := path_parent;
  joinpath := path_join;
  relative_to := path_relative_to;
  path_lt := str_lt;
  resolve := λ _ p, p;
  path_exists := exists_;
  rglob := glob;
  mkdir := make_dirs;
  write_text := write;
  parse_args := read_args;
  parse := read_graph;
  serialize := write_graph;
  get_template := load_template;
  render := render_template
|}.

End Ref.

(** ** Sample inputs *)
Module Sample.
Import Ref.

Definition ex (local : string) : Node := URIRef ("http://example.org/" ++ local).

Definition tagged (text lang : string) : Node := Lit (mkLiteral text (Some lang) None).

(** An ontology with a labelled class, an unlabelled class, a pair of
    inverse object properties, a datatype property, and a subject that
    is both a class and a property. *)
Definition family_triples : list Triple :=
  [ (ex "family", RDF_type, OWL_Ontology);
    (ex "family", DCTERMS_title, tagged "Familie" "de");
    (ex "family", DCTERMS_title, tagged "Family" "en");
    (ex "Animal", RDF_type, OWL_Class);
    (ex "Animal", RDFS_label, tagged "Tier" "de");
    (ex "Animal", RDFS_label, tagged "Animal" "en");
    (ex "Plant", RDF_type, OWL_Class);
    (ex "hasParent", RDF_type, OWL_ObjectProperty);
    (ex "hasParent", OWL_inverseOf, ex "hasChild");
    (ex "hasChild", RDF_type, OWL_ObjectProperty);
    (ex "age", RDF_type, OWL_DatatypeProperty);
    (ex "Role", RDF_type, OWL_Class);
    (ex "Role", RDF_type, RDF_Property) ].

Definition family : Graph := mkGraph family_triples [("ex", "http://example.org/")].

(** The inverse of a property written as a blank node, as in an OWL
    restriction on an inverse property. *)
Definition anonymous_inverse : Graph :=
  mkGraph
    [ (ex "hasParent", RDF_type, OWL_ObjectProperty);
      (BNode "b0", OWL_inverseOf, ex "hasParent") ]
    [("ex", "http://example.org/")].

(** A term under a namespace that the sample graph does not bind. *)
Definition unbound_term : Node := URIRef "http://other.example/Thing".


(** Directory trees: a template and one Turtle source; the template
    alone; one source with an upper-case extension; nothing at all. *)
Definition template_path : Path := "tpl/ontology.html.j2".

Definition tree_with_source : Files :=
  <["src/zoo/family.ttl" := Source family_triples]>
    (<[template_path := Text "<html>"]> ∅).

Definition tree_without_source : Files :=
  <[template_path := Text "<html>"]> ∅.

Definition tree_upper_case : Files :=
  <["src/FAMILY.TTL" := Source family_triples]> ∅.


Definition world_of (files : Files) (printed : list string) : World :=
  mkWorld files printed.

Definition argv : option (list string) :=
  Some ["src"; "out"; ".TTL"; template_path].

Definition args : Namespace := mkNamespace "src" "out" ".TTL" template_path.

(** Three sources of which the second, in the order of their paths, is
    no graph; and a tree whose only file below the source directory is
    a text file. *)
Definition tree_with_broken_source : Files :=
  <["src/zoo/notes.ttl" := Text "to do"]>
    (<["src/zoo/plants.ttl" := Source []]> tree_with_source).

Definition tree_with_text : Files :=
  <["src/readme.txt" := Text "read me"]> tree_without_source.

(** The command line with the basis written without a dot, and one
    that asks for text files. *)
Definition argv_plain : option (list string) :=
  Some ["src"; "out"; "TTL"; template_path].

Definition args_plain : Namespace := mkNamespace "src" "out" "TTL" template_path.

Definition argv_txt : option (list string) :=
  Some ["src"; "out"; "txt"; template_path].

(** Classes and properties whose order depends on lowercasing the
    label, and on the compact name where the lowercased labels agree. *)
Definition mixed_case : Graph :=
  mkGraph
    [ (ex "A1", RDF_type, OWL_Class);
      (ex "A1", RDFS_label, tagged "Zebra" "en");
      (ex "B2", RDF_type, OWL_Class);
      (ex "B2", RDFS_label, tagged "apple" "en");
      (ex "A0", RDF_type, OWL_Class);
      (ex "A0", RDFS_label, tagged "APPLE" "en");
      (ex "p1", RDF_type, OWL_ObjectProperty);
      (ex "p1", RDFS_label, tagged "Zone" "en");
      (ex "p2", RDF_type, OWL_DatatypeProperty);
      (ex "p2", RDFS_label, tagged "area" "en");
      (ex "p0", RDF_type, RDF_Property);
      (ex "p0", RDFS_label, tagged "AREA" "en") ]
    [("ex", "http://example.org/")].



End Sample.

(** * Properties *)

(** ** The order on sort keys *)

Lemma str_lt_spec a b : str_lt a b = true ↔ String_as_OT.lt a b.
Proof.
  unfold str_lt, String_as_OT.lt.
  destruct (String_as_OT.compare a b); split; congruence.
Qed.

Lemma str_lt_irrefl a : str_lt a a = false.
Proof.
  apply not_true_is_false. rewrite str_lt_spec.
  apply (irreflexivity String_as_OT.lt).
Qed.

Lemma str_lt_trans a b c : str_lt a b = true → str_lt b c = true → str_lt a c = true.
Proof. rewrite !str_lt_spec. apply (transitivity (R := String_as_OT.lt)). Qed.

Lemma str_lt_total a b : str_lt a b = false → str_lt b a = false → a = b.
Proof.
  intros Hab Hba.
  destruct (String_as_OT.compare_spec a b) as [E|L|L]; [done| |].
  - apply str_lt_spec in L. congruence.
  - apply str_lt_spec in L. congruence.
Qed.

Lemma str_lt_false_le a b : str_lt b a = false ↔ str_le a b.
Proof.
  unfold str_le. split.
  - intros Hba. destruct (str_lt a b) eqn:Hab.
    + right. by apply str_lt_spec.
    + left. by apply str_lt_total.
  - intros [->|L]; [apply str_lt_irrefl|].
    apply str_lt_spec in L. destruct (str_lt b a) eqn:Hba; [|done].
    pose proof (str_lt_trans _ _ _ L Hba) as Haa.
    rewrite str_lt_irrefl in Haa. done.
Qed.

Lemma tuple_lt_irrefl a : tuple_lt a a = false.
Proof. unfold tuple_lt. rewrite decide_True by done. apply str_lt_irrefl. Qed.

Lemma tuple_lt_trans a b c :
  tuple_lt a b = true → tuple_lt b c = true → tuple_lt a c = true.
Proof.
  unfold tuple_lt. intros Hab Hbc.
  destruct (decide (a.1 = b.1)) as [E1|N1], (decide (b.1 = c.1)) as [E2|N2].
  - rewrite decide_True by congruence. eauto using str_lt_trans.
  - rewrite decide_False by congruence. by rewrite E1.
  - rewrite decide_False by congruence. by rewrite <- E2.
  - pose proof (str_lt_trans _ _ _ Hab Hbc) as Hac.
    destruct (decide (a.1 = c.1)) as [E3|N3]; [|done].
    rewrite E3, str_lt_irrefl in Hac. done.
Qed.

Lemma tuple_lt_total a b : tuple_lt a b = false → tuple_lt b a = false → a = b.
Proof.
  unfold tuple_lt. destruct a as [a1 a2], b as [b1 b2]; simpl.
  destruct (decide (a1 = b1)) as [->|N].
  - rewrite decide_True by done. intros H1 H2. f_equal. by apply str_lt_total.
  - rewrite decide_False by congruence. intros H1 H2.
    destruct N. by apply str_lt_total.
Qed.

Lemma tuple_lt_false_le a b : tuple_lt b a = false ↔ tuple_le a b.
Proof.
  unfold tuple_lt, tuple_le. destruct (decide (b.1 = a.1)) as [E|N].
  - rewrite str_lt_false_le. split.
    + intros Hle. right. by split.
    + intros [L|[_ Hle]]; [|done].
      rewrite E in L. by apply (irreflexivity String_as_OT.lt) in L.
  - rewrite str_lt_false_le. unfold str_le. split.
    + intros [E|L]; [congruence|by left].
    + intros [L|[E _]]; [by right|congruence].
Qed.

(** ** Python's stable sort *)

Section py_sort_facts.
Context {A K : Type} (lt : K → K → bool) (key : A → K).
Hypothesis lt_irrefl : ∀ a, lt a a = false.
Hypothesis lt_trans : ∀ a b c, lt a b = true → lt b c = true → lt a c = true.
Hypothesis lt_total : ∀ a b, lt a b = false → lt b a = false → a = b.

(** [a] does not come after [b]. *)
Definition not_after (a b : K) : Prop := lt b a = false.

Lemma lt_asym a b : lt a b = true → lt b a = false.
Proof using lt_irrefl lt_trans.
  intros Hab. destruct (lt b a) eqn:Hba; [|done].
  pose proof (lt_trans _ _ _ Hab Hba) as Haa. by rewrite lt_irrefl in Haa.
Qed.

#[local] Instance not_after_trans : Transitive not_after.
Proof using lt_irrefl lt_trans lt_total.
  intros a b c Hab Hbc. unfold not_after in *.
  destruct (lt c a) eqn:Hca; [|done].
  destruct (lt a b) eqn:Hlt.
  - pose proof (lt_trans _ _ _ Hca Hlt). congruence.
  - assert (a = b) as -> by by apply lt_total. congruence.
Qed.

#[local] Instance not_after_antisym : AntiSymm (=) not_after.
Proof using lt_total. intros a b Hab Hba. by apply lt_total. Qed.

Lemma sort_insert_perm x l : sort_insert lt key x l ≡ₚ x :: l.
Proof using Type.
  induction l as [|y l IH]; simpl; [done|].
  destruct (lt (key y) (key x)); [|done].
  rewrite IH. apply Permutation_swap.
Qed.

Lemma py_sort_perm l : py_sort lt key l ≡ₚ l.
Proof using Type.
  induction l as [|x l IH]; simpl; [done|].
  rewrite sort_insert_perm. by f_equiv.
Qed.

Lemma elem_of_py_sort x l : x ∈ py_sort lt key l ↔ x ∈ l.
Proof using Type. by rewrite py_sort_perm. Qed.

(** The sort is stable: elements with one key keep their order. *)
Lemma sort_insert_stable `{EqDecision K} x l k :
  filter (λ a, key a = k) (sort_insert lt key x l)
  = filter (λ a, key a = k) (x :: l).
Proof using lt_irrefl.
  induction l as [|y l IH]; simpl; [done|].
  destruct (lt (key y) (key x)) eqn:Hyx; [|done].
  rewrite !filter_cons in *. rewrite IH.
  destruct (decide (key y = k)) as [Ey|Ny]; [|done].
  destruct (decide (key x = k)) as [Ex|Nx]; [|done].
  rewrite Ey, Ex, lt_irrefl in Hyx. done.
Qed.

Lemma py_sort_stable `{EqDecision K} l k :
  filter (λ a, key a = k) (py_sort lt key l) = filter (λ a, key a = k) l.
Proof using lt_irrefl.
  induction l as [|x l IH]; simpl; [done|].
  rewrite sort_insert_stable, !filter_cons. by rewrite IH.
Qed.

Lemma sort_insert_sorted x l :
  Sorted (λ a b, not_after (key a) (key b)) l →
  Sorted (λ a b, not_after (key a) (key b)) (sort_insert lt key x l).
Proof using lt_irrefl lt_trans.
  induction 1 as [|y l Hl IH Hhd]; simpl.
  - repeat constructor.
  - destruct (lt (key y) (key x)) eqn:Hyx.
    + constructor; [done|].
      destruct Hhd as [|z l Hyz]; simpl in *.
      * constructor. by apply lt_asym.
      * destruct (lt (key z) (key x)); constructor; [done|].
        by apply lt_asym.
    + constructor; [by constructor|]. by constructor.
Qed.

Lemma py_sort_sorted l :
  Sorted (λ a b, not_after (key a) (key b)) (py_sort lt key l).
Proof using lt_irrefl lt_trans.
  induction l as [|x l IH]; simpl; [constructor|].
  by apply sort_insert_sorted.
Qed.

Lemma py_sort_strongly_sorted l :
  StronglySorted (λ a b, not_after (key a) (key b)) (py_sort lt key l).
Proof using lt_irrefl lt_trans lt_total.
  apply Sorted_StronglySorted; [|apply py_sort_sorted].
  intros a b c Hab Hbc. by etrans.
Qed.

Lemma py_sort_keys_sorted l : StronglySorted not_after (key <$> py_sort lt key l).
Proof using lt_irrefl lt_trans lt_total.
  apply Sorted_StronglySorted; [apply _|].
  apply (Sorted_fmap key (λ a b, not_after (key a) (key b)) not_after); [done|].
  apply py_sort_sorted.
Qed.

(** The keys come out in one order, whatever order the input was in. *)
Lemma py_sort_keys_perm l1 l2 :
  l1 ≡ₚ l2 → key <$> py_sort lt key l1 = key <$> py_sort lt key l2.
Proof using lt_irrefl lt_trans lt_total.
  intros Hp. apply (StronglySorted_unique not_after).
  - apply py_sort_keys_sorted.
  - apply py_sort_keys_sorted.
  - by rewrite !py_sort_perm, Hp.
Qed.

(** With pairwise distinct keys the whole result is independent of the
    input order. *)
Lemma py_sort_perm_eq l1 l2 :
  l1 ≡ₚ l2 → NoDup (key <$> l1) → py_sort lt key l1 = py_sort lt key l2.
Proof using lt_irrefl lt_trans lt_total.
  intros Hp Hnd.
  assert (Transitive (λ a b, not_after (key a) (key b))) as Htr.
  { intros a b c Hab Hbc. by etrans. }
  apply (Sorted_unique_strong (λ a b, not_after (key a) (key b))).
  - intros x1 x2 Hx1 Hx2 H12 H21.
    rewrite elem_of_py_sort in Hx1. rewrite elem_of_py_sort, <- Hp in Hx2.
    assert (key x1 = key x2) as Hk by by apply lt_total.
    clear -Hnd Hx1 Hx2 Hk.
    induction l1 as [|y l IH]; [by apply elem_of_nil in Hx1|].
    rewrite fmap_cons, NoDup_cons in Hnd. destruct Hnd as [Hy Hnd].
    apply elem_of_cons in Hx1 as [->|Hx1]; apply elem_of_cons in Hx2 as [->|Hx2].
    + done.
    + destruct Hy. rewrite Hk. by apply list_elem_of_fmap_2.
    + destruct Hy. rewrite <- Hk. by apply list_elem_of_fmap_2.
    + by apply IH.
  - apply py_sort_sorted.
  - apply py_sort_sorted.
  - by rewrite !py_sort_perm.
Qed.
End py_sort_facts.

(** ** Language-preferring selection *)

(** What the dict comprehension holds under a key: the last literal of
    the list that carries this language. *)
Lemma foldl_by_lang_lookup (l : list Node) (m : gmap (option string) Node) k :
  foldl (λ m v, <[node_language v := v]> m) m l !! k
  = match last (filter (λ v, node_language v = k) l) with
    | Some v => Some v
    | None => m !! k
    end.
Proof.
  revert m. induction l as [|v l IH]; intros m; simpl; [done|].
  rewrite IH, filter_cons. destruct (decide (node_language v = k)) as [E|N].
  - rewrite last_cons. destruct (last (filter _ l)); [done|].
    by rewrite <- E, lookup_insert_eq.
  - destruct (last (filter _ l)); [done|]. by rewrite lookup_insert_ne.
Qed.

Lemma by_lang_of_lookup (values : list Node) k :
  by_lang_of values !! k
  = last (filter (λ v, node_language v = k) (filter (λ v, is_Literal v = true) values)).
Proof.
  unfold by_lang_of. rewrite foldl_by_lang_lookup, lookup_empty.
  by destruct (last _).
Qed.

Lemma by_lang_of_Some (values : list Node) k r :
  by_lang_of values !! k = Some r →
  r ∈ values ∧ is_Literal r = true ∧ node_language r = k.
Proof.
  rewrite by_lang_of_lookup. intros Hl.
  apply last_Some_elem_of in Hl.
  apply list_elem_of_filter in Hl as [Hk Hl].
  apply list_elem_of_filter in Hl as [Hlit Hl]. done.
Qed.

Lemma by_lang_of_None (values : list Node) k :
  by_lang_of values !! k = None ↔
  ¬ ∃ v, v ∈ values ∧ is_Literal v = true ∧ node_language v = k.
Proof.
  rewrite by_lang_of_lookup, last_None. split.
  - intros Hnil (v & Hv & Hlit & Hk).
    assert (v ∈ filter (λ v, node_language v = k)
                  (filter (λ v, is_Literal v = true) values)) as Hin'.
    { by rewrite !list_elem_of_filter. }
    rewrite Hnil in Hin'. by apply elem_of_nil in Hin'.
  - intros Hno. destruct (filter _ (filter _ values)) as [|v f] eqn:Hf; [done|].
    destruct Hno. exists v.
    assert (v ∈ v :: f) as Hin by left. rewrite <- Hf in Hin.
    rewrite !list_elem_of_filter in Hin. destruct Hin as (? & ? & ?). done.
Qed.

(** C1. Language-preferring selection with the default preference: when
    some literal of the list is tagged "en", the value returned is a
    literal of the list tagged "en"; when none is, it is the first
    element of the list (present as soon as the list is not empty); on
    the empty list no value is returned.  The list itself is handed
    back unchanged, and an empty preference list means the default. *)
Theorem literal_by_lang_prefers_en (values : list Node) :
  let chosen := (literal_by_lang values None).1 in
  ((∃ v, v ∈ values ∧ is_Literal v = true ∧ node_language v = Some "en") →
     ∃ r, chosen = Some r ∧ r ∈ values ∧ is_Literal r = true
          ∧ node_language r = Some "en")
  ∧ ((¬ ∃ v, v ∈ values ∧ is_Literal v = true ∧ node_language v = Some "en") →
     chosen = head values ∧ (values ≠ [] → is_Some chosen))
  ∧ (values = [] → chosen = None)
  ∧ (literal_by_lang values None).2 = values
  ∧ literal_by_lang values (Some []) = literal_by_lang values None.
Proof.
  simpl. unfold literal_by_lang. simpl.
  destruct (by_lang_of values !! Some "en") as [r|] eqn:Hen.
  - apply by_lang_of_Some in Hen as (Hin & Hlit & Hlang).
    split; [|split; [|split; [|split]]]; simpl; try done.
    + intros _. by exists r.
    + intros Hno. destruct Hno. by exists r.
    + intros ->. by apply elem_of_nil in Hin.
  - apply by_lang_of_None in Hen.
    split; [|split; [|split; [|split]]]; simpl; try done.
    + intros _. split; [done|]. by destruct values.
    + by intros ->.
Qed.

(** The literal preferred is the last "en"-tagged one of the list. *)
Lemma literal_by_lang_last_en (values : list Node) r :
  last (filter (λ v, node_language v = Some "en")
          (filter (λ v, is_Literal v = true) values)) = Some r →
  (literal_by_lang values None).1 = Some r.
Proof.
  intros Hl. unfold literal_by_lang. simpl.
  by rewrite by_lang_of_lookup, Hl.
Qed.

Lemma StronglySorted_weaken {A} (R1 R2 : relation A) (l : list A) :
  (∀ x y, R1 x y → R2 x y) → StronglySorted R1 l → StronglySorted R2 l.
Proof.
  intros HR. induction 1 as [|x l Hl IH Hx]; constructor; [done|].
  eapply Forall_impl; [exact Hx|]. auto.
Qed.

Lemma py_sort_tuple_sorted {A} (key : A → string * string) (l : list A) :
  StronglySorted (λ x y, tuple_le (key x) (key y)) (py_sort tuple_lt key l).
Proof.
  eapply StronglySorted_weaken;
    [|apply (py_sort_strongly_sorted tuple_lt key
               tuple_lt_irrefl tuple_lt_trans tuple_lt_total)].
  intros x y Hxy. by apply tuple_lt_false_le.
Qed.

Lemma py_sort_str_sorted {A} (key : A → string) (l : list A) :
  StronglySorted str_le (key <$> py_sort str_lt key l).
Proof.
  eapply StronglySorted_weaken;
    [|apply (py_sort_keys_sorted str_lt key
               str_lt_irrefl str_lt_trans str_lt_total)].
  intros x y Hxy. by apply str_lt_false_le.
Qed.

(** ** The metadata extractor *)

Section extractor_facts.
Context `{Rdflib}.
Variable str_lower : string → string.

Lemma elem_of_subjects (g : Graph) p o s :
  s ∈ subjects g p o ↔ (s, p, o) ∈ triples g.
Proof.
  unfold subjects. rewrite list_elem_of_fmap. split.
  - intros ([[s' p'] o'] & -> & Hin).
    apply list_elem_of_filter in Hin as [[Hp Ho] Hin]. simpl in *. by subst.
  - intros Hin. exists (s, p, o). split; [done|].
    by apply list_elem_of_filter.
Qed.

Lemma elem_of_objects (g : Graph) s p o :
  o ∈ objects g s p ↔ (s, p, o) ∈ triples g.
Proof.
  unfold objects. rewrite list_elem_of_fmap. split.
  - intros ([[s' p'] o'] & -> & Hin).
    apply list_elem_of_filter in Hin as [[Hs Hp] Hin]. simpl in *. by subst.
  - intros Hin. exists (s, p, o). split; [done|].
    by apply list_elem_of_filter.
Qed.

Lemma contains_true (g : Graph) t : contains g t = true ↔ t ∈ triples g.
Proof. unfold contains. by rewrite bool_decide_eq_true. Qed.

Lemma contains_false (g : Graph) t : contains g t = false ↔ t ∉ triples g.
Proof. unfold contains. by rewrite bool_decide_eq_false. Qed.

Lemma elem_of_class_subjects (g : Graph) s :
  s ∈ class_subjects g ↔ (s, RDF_type, OWL_Class) ∈ triples g.
Proof. unfold class_subjects. by rewrite elem_of_list_to_set, elem_of_subjects. Qed.

Lemma elem_of_property_subjects (g : Graph) s :
  s ∈ property_subjects g ↔ typed_as_property g s.
Proof.
  unfold property_subjects, typed_as_property.
  rewrite !elem_of_union, !elem_of_list_to_set, !elem_of_subjects. tauto.
Qed.

Lemma elem_of_inverses_set (g : Graph) s u :
  u ∈ inverses_set g s ↔
  is_URIRef u = true ∧ ((s, OWL_inverseOf, u) ∈ triples g ∨ (u, OWL_inverseOf, s) ∈ triples g).
Proof.
  unfold inverses_set.
  rewrite elem_of_union, !elem_of_list_to_set, !list_elem_of_filter.
  rewrite elem_of_objects, elem_of_subjects. tauto.
Qed.

(** Every set member gets one descriptor, and nothing else does. *)
Lemma elem_of_collect_classes (g : Graph) x :
  x ∈ collect_classes str_lower g ↔
  ∃ s, (s, RDF_type, OWL_Class) ∈ triples g ∧ x = class_info g s.
Proof.
  unfold collect_classes, collect_classes_in.
  rewrite elem_of_py_sort, list_elem_of_fmap.
  split; intros (s & H1 & H2).
  - exists s. by rewrite <- elem_of_class_subjects, <- elem_of_elements.
  - exists s. by rewrite elem_of_elements, elem_of_class_subjects.
Qed.

Lemma elem_of_collect_properties (g : Graph) x :
  x ∈ collect_properties str_lower g ↔
  ∃ s, typed_as_property g s ∧ x = property_info g s.
Proof.
  unfold collect_properties, collect_properties_in.
  rewrite elem_of_py_sort, list_elem_of_fmap.
  split; intros (s & H1 & H2).
  - exists s. by rewrite <- elem_of_property_subjects, <- elem_of_elements.
  - exists s. by rewrite elem_of_elements, elem_of_property_subjects.
Qed.

Lemma get_literals_nil (g : Graph) s p :
  (∀ o, (s, p, o) ∈ triples g → is_Literal o = false) →
  get_literals g s p = [].
Proof.
  intros Hno. unfold get_literals.
  destruct (filter _ (objects g s p)) as [|o l] eqn:Hf; [done|].
  assert (o ∈ o :: l) as Hin by left. rewrite <- Hf in Hin.
  apply list_elem_of_filter in Hin as [Hlit Hin].
  apply elem_of_objects, Hno in Hin. congruence.
Qed.

Lemma display_label_default (g : Graph) s :
  (∀ o, (s, RDFS_label, o) ∈ triples g → is_Literal o = false) →
  display_label g s = qname g s.
Proof.
  intros Hno. unfold display_label. by rewrite get_literals_nil.
Qed.

(** The header has no title when the ontology has no title literal. *)
Lemma header_title_absent (g : Graph) :
  (∀ ont o, (ont, DCTERMS_title, o) ∈ triples g → is_Literal o = false) →
  OntologyHeader.title (collect_ontology_info g) = None.
Proof.
  intros Hno. unfold collect_ontology_info.
  destruct (subjects g RDF_type OWL_Ontology) as [|ont rest]; [done|]. simpl.
  rewrite get_literals_nil; [done|]. intros o. apply Hno.
Qed.

(** C5. Class extraction: the list holds exactly the descriptors of
    the subjects asserted as owl:Class; a subject without a label
    literal is labelled with its compact name; the list is in
    ascending order of the pair made of the lowercased label and the
    compact name of a descriptor, label first; and extracting again
    gives the same ordered list, in whatever order the set of class
    subjects is visited: the sequence of these pairs is always the
    same, and so is the whole list when no two descriptors share a
    pair. *)
Theorem collect_classes_sorted_deterministic (g : Graph) :
  let pair_of := λ x : ClassInfo.t, (str_lower (ClassInfo.label x), ClassInfo.qname x) in
  (∀ x, x ∈ collect_classes str_lower g ↔
        ∃ s, (s, RDF_type, OWL_Class) ∈ triples g ∧ x = class_info g s)
  ∧ (∀ s, (∀ o, (s, RDFS_label, o) ∈ triples g → is_Literal o = false) →
          ClassInfo.label (class_info g s) = ClassInfo.qname (class_info g s))
  ∧ StronglySorted
      (λ x y,
         String_as_OT.lt (str_lower (ClassInfo.label x)) (str_lower (ClassInfo.label y))
         ∨ (str_lower (ClassInfo.label x) = str_lower (ClassInfo.label y)
            ∧ (ClassInfo.qname x = ClassInfo.qname y
               ∨ String_as_OT.lt (ClassInfo.qname x) (ClassInfo.qname y))))
      (collect_classes str_lower g)
  ∧ (∀ order, order ≡ₚ elements (class_subjects g) →
       pair_of <$> collect_classes_in str_lower g order
       = pair_of <$> collect_classes str_lower g
       ∧ (NoDup (pair_of <$> collect_classes str_lower g) →
          collect_classes_in str_lower g order = collect_classes str_lower g)).
Proof.
  simpl. split; [|split; [|split]].
  - apply elem_of_collect_classes.
  - intros s Hno. simpl. by apply display_label_default.
  - apply (py_sort_tuple_sorted
             (λ x : ClassInfo.t, (str_lower (ClassInfo.label x), ClassInfo.qname x))).
  - intros order Hp. unfold collect_classes, collect_classes_in. split.
    + apply (py_sort_keys_perm tuple_lt
               (λ x : ClassInfo.t, (str_lower (ClassInfo.label x), ClassInfo.qname x))
               tuple_lt_irrefl tuple_lt_trans tuple_lt_total).
      by apply fmap_Permutation.
    + intros Hnd.
      apply (py_sort_perm_eq tuple_lt
               (λ x : ClassInfo.t, (str_lower (ClassInfo.label x), ClassInfo.qname x))
               tuple_lt_irrefl tuple_lt_trans tuple_lt_total).
      * by apply fmap_Permutation.
      * unfold collect_classes, collect_classes_in in Hnd.
        rewrite py_sort_perm in Hnd. by rewrite Hp.
Qed.

(** The inverse list of a subject: one entry per inverse partner, in
    ascending order of compact name. *)
Lemma inverses_of_spec (g : Graph) s :
  ∃ l, NoDup l
       ∧ (∀ u, u ∈ l ↔ is_URIRef u = true
                       ∧ ((s, OWL_inverseOf, u) ∈ triples g
                          ∨ (u, OWL_inverseOf, s) ∈ triples g))
       ∧ inverses_of g s = qname g <$> l
       ∧ StronglySorted str_le (inverses_of g s).
Proof.
  exists (py_sort str_lt (qname g) (elements (inverses_set g s))).
  split; [|split; [|split]].
  - rewrite py_sort_perm. apply NoDup_elements.
  - intros u. by rewrite elem_of_py_sort, elem_of_elements, elem_of_inverses_set.
  - done.
  - apply py_sort_str_sorted.
Qed.

Lemma inverses_of_elem (g : Graph) s u :
  is_URIRef u = true →
  (s, OWL_inverseOf, u) ∈ triples g ∨ (u, OWL_inverseOf, s) ∈ triples g →
  qname g u ∈ inverses_of g s.
Proof.
  intros Hu Hinv. unfold inverses_of. apply list_elem_of_fmap_2.
  by rewrite elem_of_py_sort, elem_of_elements, elem_of_inverses_set.
Qed.

(** C2, as the code has it.  Symmetry of the inverse lists: if the
    graph holds an inverse-of assertion between A and B in either
    direction, then each of the two that is collected as a property
    has its descriptor in the property list, and that descriptor's
    inverse list holds the compact name of the other whenever the
    other is a URI.  The inverse list of every descriptor has one
    entry per distinct inverse partner that is a URI, and is in
    ascending order of compact name. *)
Theorem inverse_lists_symmetric (g : Graph) (A B : Node) :
  (A, OWL_inverseOf, B) ∈ triples g ∨ (B, OWL_inverseOf, A) ∈ triples g →
  (typed_as_property g A → is_URIRef B = true →
     property_info g A ∈ collect_properties str_lower g
     ∧ qname g B ∈ PropertyInfo.inverses (property_info g A))
  ∧ (typed_as_property g B → is_URIRef A = true →
     property_info g B ∈ collect_properties str_lower g
     ∧ qname g A ∈ PropertyInfo.inverses (property_info g B))
  ∧ (∀ d, d ∈ collect_properties str_lower g →
       StronglySorted str_le (PropertyInfo.inverses d)
       ∧ ∃ s l, d = property_info g s ∧ NoDup l
                ∧ (∀ u, u ∈ l ↔ is_URIRef u = true
                                ∧ ((s, OWL_inverseOf, u) ∈ triples g
                                   ∨ (u, OWL_inverseOf, s) ∈ triples g))
                ∧ PropertyInfo.inverses d = qname g <$> l).
Proof.
  intros Hinv. split; [|split].
  - intros Ha Hb. split.
    + apply elem_of_collect_properties. by exists A.
    + simpl. apply inverses_of_elem; [done|]. tauto.
  - intros Hb Ha. split.
    + apply elem_of_collect_properties. by exists B.
    + simpl. apply inverses_of_elem; [done|]. tauto.
  - intros d (s & Hs & ->)%elem_of_collect_properties. simpl.
    destruct (inverses_of_spec g s) as (l & Hnd & Hl & Heq & Hsorted).
    split; [done|]. by exists s, l.
Qed.

Lemma property_kind_cases (g : Graph) s :
  ((s, RDF_type, OWL_ObjectProperty) ∈ triples g →
     property_kind g s = "ObjectProperty")
  ∧ ((s, RDF_type, OWL_ObjectProperty) ∉ triples g →
     (s, RDF_type, OWL_DatatypeProperty) ∈ triples g →
     property_kind g s = "DatatypeProperty")
  ∧ ((s, RDF_type, OWL_ObjectProperty) ∉ triples g →
     (s, RDF_type, OWL_DatatypeProperty) ∉ triples g →
     property_kind g s = "Property").
Proof.
  unfold property_kind. split; [|split].
  - intros Ho. apply contains_true in Ho. by rewrite Ho.
  - intros No Hd. apply contains_false in No. apply contains_true in Hd.
    by rewrite No, Hd.
  - intros No Nd. apply contains_false in No. apply contains_false in Nd.
    by rewrite No, Nd.
Qed.

(** C3. Every descriptor of the property list belongs to a subject
    typed as a property, and its kind is one of ObjectProperty,
    DatatypeProperty and GenericProperty: ObjectProperty exactly when
    the subject has an ObjectProperty type assertion, DatatypeProperty
    exactly when it has none but has a DatatypeProperty type assertion,
    and the generic kind exactly when it has neither.  The tag written
    in the descriptor is "ObjectProperty", "DatatypeProperty" or, for
    the generic kind, "Property". *)
Theorem property_kind_precedence (g : Graph) (d : PropertyInfo.t) :
  d ∈ collect_properties str_lower g →
  ∃ s k, typed_as_property g s
         ∧ d = property_info g s
         ∧ PropertyInfo.kind d = property_kind g s
         ∧ PropertyInfo.kind d = kind_tag k
         ∧ PropertyInfo.kind d ∈ ["ObjectProperty"; "DatatypeProperty"; "Property"]
         ∧ (k = ObjectProperty ↔ (s, RDF_type, OWL_ObjectProperty) ∈ triples g)
         ∧ (k = DatatypeProperty ↔
              ((s, RDF_type, OWL_ObjectProperty) ∉ triples g)
              ∧ ((s, RDF_type, OWL_DatatypeProperty) ∈ triples g))
         ∧ (k = GenericProperty ↔
              ((s, RDF_type, OWL_ObjectProperty) ∉ triples g)
              ∧ ((s, RDF_type, OWL_DatatypeProperty) ∉ triples g)).
Proof.
  intros (s & Hs & ->)%elem_of_collect_properties. exists s. simpl.
  destruct (property_kind_cases g s) as (Ho & Hd & Hp).
  destruct (decide ((s, RDF_type, OWL_ObjectProperty) ∈ triples g)) as [Io|No].
  { exists ObjectProperty. rewrite (Ho Io). split_and!; try done.
    - set_solver.
    - split; [done|]. by intros [? _].
    - split; [done|]. by intros [? _]. }
  destruct (decide ((s, RDF_type, OWL_DatatypeProperty) ∈ triples g)) as [Id|Nd].
  { exists DatatypeProperty. rewrite (Hd No Id). split_and!; try done.
    - set_solver.
    - split; [done|]. by intros [_ ?]. }
  exists GenericProperty. rewrite (Hp No Nd). split_and!; try done.
  - set_solver.
  - split; [done|]. by intros [_ ?].
Qed.

(** C10. Class collection and property collection do not exclude each
    other: a subject with an owl:Class type assertion and one of the
    three property-kind type assertions has its class descriptor in
    the class list and its property descriptor in the property list,
    both under its identifier. *)
Theorem class_and_property_both_collected (g : Graph) (s : Node) :
  (s, RDF_type, OWL_Class) ∈ triples g →
  typed_as_property g s →
  class_info g s ∈ collect_classes str_lower g
  ∧ property_info g s ∈ collect_properties str_lower g
  ∧ ClassInfo.iri (class_info g s) = str s
  ∧ PropertyInfo.iri (property_info g s) = str s.
Proof.
  intros Hc Hp. split; [|split; [|done]].
  - apply elem_of_collect_classes. by exists s.
  - apply elem_of_collect_properties. by exists s.
Qed.

(** C6, as the code has it.  Compact-name resolution never raises:
    whatever the namespace manager does, [qname] returns a string.  It
    is the answer of the manager's [normalizeUri] whenever that call
    returns, and the term's full identifier string, unchanged, when
    that call raises. *)
Theorem qname_never_raises (g : Graph) (term : Node) :
  qname_result g term = Ok (qname g term)
  ∧ (∀ s, normalizeUri (namespace_manager g) term = Some s → qname g term = s)
  ∧ (normalizeUri (namespace_manager g) term = None → qname g term = str term).
Proof.
  unfold qname_result, qname.
  destruct (normalizeUri (namespace_manager g) term) as [s|]; simpl.
  - split; [done|]. split; [|done]. by intros ? [= ->].
  - split; [done|]. split; [done|]. done.
Qed.
End extractor_facts.

(** ** The loader *)

Lemma FORMAT_BY_EXT_lookup (ext fmt : string) :
  FORMAT_BY_EXT !! ext = Some fmt ↔
  (ext, fmt) ∈ [(".ttl", "turtle"); (".jsonld", "json-ld"); (".json", "json-ld");
                (".owl", "xml"); (".rdf", "xml"); (".xml", "xml")].
Proof.
  unfold FORMAT_BY_EXT. rewrite !lookup_insert, lookup_empty.
  rewrite !elem_of_cons, elem_of_nil.
  repeat case_decide; subst; split; intros Hx;
    try (simplify_eq; tauto);
    try (destruct_or!; simplify_eq; done).
Qed.

Section loader_facts.
Context `{Platform}.
Variable str_lower : string → string.

Lemma parse_and_bind_not_unsupported files path fmt e :
  parse_and_bind files path fmt ≠ Raise (ValueError e).
Proof. unfold parse_and_bind. by destruct (parse files path fmt). Qed.

Lemma load_graph_unsupported_iff files path :
  load_graph str_lower files path = Raise (unsupported path)
  ↔ FORMAT_BY_EXT !! str_lower (suffix path) = None.
Proof.
  unfold load_graph, detect_format.
  destruct (FORMAT_BY_EXT !! str_lower (suffix path)) as [fmt|]; [|done].
  split; [|done]. intros Hr. by apply parse_and_bind_not_unsupported in Hr.
Qed.

(** C4, as the code has it.  The loader takes the parse format from
    the file's extension alone, through the fixed table (.ttl to
    turtle, .jsonld and .json to json-ld, .owl, .rdf and .xml to xml)
    looked up at the lowercased extension, and raises the
    unsupported-extension error exactly when the lowercased extension
    is not in the table. *)
Theorem load_graph_format_by_extension (files : FS) (path : Path) :
  (∀ fmt, detect_format str_lower path = Some fmt ↔
     (str_lower (suffix path), fmt) ∈
       [(".ttl", "turtle"); (".jsonld", "json-ld"); (".json", "json-ld");
        (".owl", "xml"); (".rdf", "xml"); (".xml", "xml")])
  ∧ (∀ fmt, detect_format str_lower path = Some fmt →
       load_graph str_lower files path = parse_and_bind files path fmt)
  ∧ (load_graph str_lower files path = Raise (unsupported path)
     ↔ FORMAT_BY_EXT !! str_lower (suffix path) = None)
  ∧ (∀ path', suffix path' = suffix path →
       detect_format str_lower path' = detect_format str_lower path).
Proof.
  split; [|split; [|split]].
  - intros fmt. apply FORMAT_BY_EXT_lookup.
  - intros fmt Hf. unfold load_graph. by rewrite Hf.
  - apply load_graph_unsupported_iff.
  - intros path' Hs. unfold detect_format. by rewrite Hs.
Qed.

(** C9. Format detection ignores the case of the extension: the
    suffix is lowercased before the table is consulted, so two paths
    whose suffixes agree up to case are treated alike, and, [str.lower]
    being ASCII lowercasing on ASCII text, a file with the suffix
    ".TTL" is parsed as Turtle and not rejected as unsupported. *)
Theorem load_graph_extension_case_insensitive (path : Path) :
  (∀ s, is_ascii s → str_lower s = ascii_lower s) →
  detect_format str_lower path = FORMAT_BY_EXT !! str_lower (suffix path)
  ∧ (∀ path', str_lower (suffix path') = str_lower (suffix path) →
       detect_format str_lower path' = detect_format str_lower path)
  ∧ (∀ fmt, is_ascii (suffix path) →
       FORMAT_BY_EXT !! ascii_lower (suffix path) = Some fmt →
       ∀ files, load_graph str_lower files path = parse_and_bind files path fmt)
  ∧ (suffix path = ".TTL" →
       detect_format str_lower path = Some "turtle"
       ∧ ∀ files, load_graph str_lower files path = parse_and_bind files path "turtle"
                  ∧ load_graph str_lower files path ≠ Raise (unsupported path)).
Proof.
  intros Hlower. split; [done|]. split; [|split].
  - intros path' Hs. unfold detect_format. by rewrite Hs.
  - intros fmt Ha Hf files. unfold load_graph, detect_format.
    by rewrite (Hlower _ Ha), Hf.
  - intros Hs.
    assert (detect_format str_lower path = Some "turtle") as Hd.
    { unfold detect_format. rewrite Hs, Hlower; [done|].
      unfold is_ascii. simpl. repeat constructor; simpl; lia. }
    split; [done|]. intros files.
    unfold load_graph. rewrite Hd. split; [done|].
    apply parse_and_bind_not_unsupported.
Qed.
End loader_facts.

(** ** [str.endswith] *)

Lemma length_append (p t : string) :
  String.length (p ++ t) = (String.length p + String.length t)%nat.
Proof. induction p as [|c p IH]; simpl; [done|]. by rewrite IH. Qed.

Lemma substring_0_length (t : string) : substring 0 (String.length t) t = t.
Proof. induction t as [|c t IH]; simpl; [done|]. by rewrite IH. Qed.

Lemma substring_length_append (p t : string) :
  substring (String.length p) (String.length t) (p ++ t) = t.
Proof. induction p as [|c p IH]; simpl; [apply substring_0_length|done]. Qed.

Lemma substring_split (s : string) (k : nat) :
  (k ≤ String.length s)%nat →
  s = substring 0 k s ++ substring k (String.length s - k) s.
Proof.
  revert k. induction s as [|c s IH]; intros k Hk; simpl in *.
  - by replace k with 0%nat by lia.
  - destruct k as [|k]; simpl.
    + by rewrite substring_0_length.
    + change (String c s
              = String c (substring 0 k s ++ substring k (String.length s - k) s)).
      f_equal. apply IH. lia.
Qed.

Lemma endswith_spec (s t : string) : endswith s t = true ↔ ∃ p, s = p ++ t.
Proof.
  unfold endswith. rewrite andb_true_iff, !bool_decide_eq_true. split.
  - intros [Hle Hsub]. exists (substring 0 (String.length s - String.length t) s).
    pose proof (substring_split s (String.length s - String.length t)) as Hs.
    replace (String.length s - (String.length s - String.length t))%nat
      with (String.length t) in Hs by lia.
    rewrite Hsub in Hs. apply Hs. lia.
  - intros [p ->]. rewrite length_append. split; [lia|].
    replace (String.length p + String.length t - String.length t)%nat
      with (String.length p) by lia.
    apply substring_length_append.
Qed.

(** ** Prefix registration *)

Section prefix_facts.
Context `{Platform}.
Variable str_lower : string → string.

Lemma base_ns_spec (iri : string) :
  ((∃ p, iri = p ++ "#") ∨ (∃ p, iri = p ++ "/") → base_ns iri = iri)
  ∧ (¬ (∃ p, iri = p ++ "#") → ¬ (∃ p, iri = p ++ "/") → base_ns iri = iri ++ "#").
Proof.
  unfold base_ns. rewrite <- !endswith_spec.
  destruct (endswith iri "#"), (endswith iri "/"); simpl; split; try done.
  all: try (intros [?|?]; done).
  all: try (intros Hn; by destruct Hn).
  all: intros _ Hn; by destruct Hn.
Qed.


Lemma triples_ensure_default_prefix (g : Graph) o :
  triples (ensure_default_prefix g o) = triples g.
Proof. destruct o as [[|c s]|]; done. Qed.

Lemma triples_ensure_common_prefixes (g : Graph) :
  triples (ensure_common_prefixes g) = triples g.
Proof. done. Qed.

End prefix_facts.

(** ** The driver *)

Lemma py_sort_nil {A K} (lt : K → K → bool) (key : A → K) (l : list A) :
  py_sort lt key l = [] ↔ l = [].
Proof.
  split; [|by intros ->]. intros Hs.
  apply Permutation_nil_r. rewrite <- Hs. by rewrite py_sort_perm.
Qed.

Section driver_facts.
Context `{Platform}.
Variable str_lower : string → string.

Lemma for_each_converts_all sd dd tp paths w w' :
  converts_all str_lower sd dd tp paths w w'
  ↔ for_each paths (convert_and_report str_lower sd dd tp) w = (w', Ok tt).
Proof.
  split.
  - induction 1 as [w|path rest w w1 w2 Hc Hrest IH]; simpl; [done|].
    unfold mbind, M_bind, bind. by rewrite Hc.
  - revert w. induction paths as [|path rest IH]; intros w; simpl.
    + intros [= <-]. constructor.
    + unfold mbind, M_bind, bind.
      destruct (convert_and_report str_lower sd dd tp path w) as [w1 [[]|e]] eqn:Hc;
        [|done].
      intros Hrest. econstructor; [exact Hc|]. by apply IH.
Qed.

End driver_facts.

(** * Further properties of the script *)

(** ** More on the extractor *)

Section extractor_more.
Context `{Rdflib}.
Variable str_lower : string → string.

Lemma first_preferred_Some (m : gmap (option string) Node) (preferred : list string) v :
  first_preferred m preferred = Some v →
  ∃ before lang after,
    preferred = (before ++ lang :: after)%list
    ∧ (∀ l, l ∈ before → m !! Some l = None)
    ∧ m !! Some lang = Some v.
Proof.
  induction preferred as [|lang rest IH]; simpl; [done|].
  destruct (m !! Some lang) as [x|] eqn:Hl.
  - intros [= ->]. exists [], lang, rest. split; [done|]. split; [|done].
    intros l Hin. by apply elem_of_nil in Hin.
  - intros (before & lang' & after & -> & Hb & Hv)%IH.
    exists (lang :: before), lang', after. split; [done|]. split; [|done].
    intros l [->|Hin]%elem_of_cons; [done|]. by apply Hb.
Qed.

Lemma first_preferred_None (m : gmap (option string) Node) (preferred : list string) :
  first_preferred m preferred = None ↔ ∀ l, l ∈ preferred → m !! Some l = None.
Proof.
  induction preferred as [|lang rest IH]; simpl.
  - split; [|done]. intros _ l Hin. by apply elem_of_nil in Hin.
  - destruct (m !! Some lang) as [x|] eqn:Hl.
    + split; [done|]. intros Hall. rewrite Hall in Hl; [done|left].
    + rewrite IH. split.
      * intros Hall l [->|Hin]%elem_of_cons; [done|]. by apply Hall.
      * intros Hall l Hin. apply Hall. by right.
Qed.

Lemma literal_by_lang_chosen_in (values : list Node) preferred v :
  (literal_by_lang values preferred).1 = Some v → v ∈ values.
Proof.
  unfold literal_by_lang.
  destruct (first_preferred _ _) as [x|] eqn:Hf; simpl.
  - intros [= ->].
    apply first_preferred_Some in Hf as (_ & lang & _ & _ & _ & Hv).
    by apply by_lang_of_Some in Hv as (Hin & _).
  - apply head_Some_elem_of.
Qed.

(** X1.  What [get_literals] hands over: exactly the literal objects of the
    triples with the given subject and predicate, in the order of the
    store and nothing else; so the literal lists of every class
    descriptor hold literals only. *)
Theorem get_literals_only_literals (g : Graph) (s p : Node) :
  (∀ o, o ∈ get_literals g s p ↔ (s, p, o) ∈ triples g ∧ is_Literal o = true)
  ∧ get_literals g s p `sublist_of` objects g s p
  ∧ (∀ x, x ∈ collect_classes str_lower g →
       Forall (λ o, is_Literal o = true) (ClassInfo.definitions x)
       ∧ Forall (λ o, is_Literal o = true) (ClassInfo.comments x)
       ∧ Forall (λ o, is_Literal o = true) (ClassInfo.examples x))
  ∧ (∀ x, x ∈ collect_properties str_lower g →
       Forall (λ o, is_Literal o = true) (PropertyInfo.comments x)).
Proof.
  assert (∀ s' p', Forall (λ o, is_Literal o = true) (get_literals g s' p')) as Hall.
  { intros s' p'. apply Forall_forall. intros o Ho.
    by apply list_elem_of_filter in Ho as [Hlit _]. }
  split; [|split; [|split]].
  - intros o. unfold get_literals.
    rewrite list_elem_of_filter, elem_of_objects. tauto.
  - apply sublist_filter.
  - intros x (s' & _ & ->)%elem_of_collect_classes. simpl. auto.
  - intros x (s' & _ & ->)%elem_of_collect_properties. simpl. auto.
Qed.

(** X2.  The ontology header.  Without a subject typed owl:Ontology all three
    fields are absent.  Otherwise the first such subject decides: its
    text is the identifier, and a title or description, when present,
    is the text of one of its title or description literals, one whose
    truth value is true; when every such literal is false (an empty
    one, say) the field is absent although literals exist. *)
Theorem collect_ontology_info_header (g : Graph) :
  (subjects g RDF_type OWL_Ontology = [] →
     collect_ontology_info g = OntologyHeader.mk None None None)
  ∧ (∀ ont rest, subjects g RDF_type OWL_Ontology = ont :: rest →
       OntologyHeader.iri (collect_ontology_info g) = Some (str ont)
       ∧ (∀ t, OntologyHeader.title (collect_ontology_info g) = Some t →
            ∃ v, (ont, DCTERMS_title, v) ∈ triples g ∧ is_Literal v = true
                 ∧ truthy v = true ∧ str v = t)
       ∧ (∀ t, OntologyHeader.description (collect_ontology_info g) = Some t →
            ∃ v, (ont, DCTERMS_description, v) ∈ triples g ∧ is_Literal v = true
                 ∧ truthy v = true ∧ str v = t)
       ∧ ((∀ v, (ont, DCTERMS_title, v) ∈ triples g → is_Literal v = true →
                truthy v = false) →
          OntologyHeader.title (collect_ontology_info g) = None)
       ∧ ((∀ v, (ont, DCTERMS_description, v) ∈ triples g → is_Literal v = true →
                truthy v = false) →
          OntologyHeader.description (collect_ontology_info g) = None)).
Proof.
  assert (∀ ont p t,
            match (literal_by_lang (get_literals g ont p) None).1 with
            | Some v => if truthy v then Some (str v) else None
            | None => None
            end = Some t →
            ∃ v, (ont, p, v) ∈ triples g ∧ is_Literal v = true
                 ∧ truthy v = true ∧ str v = t) as Hsome.
  { intros ont p t.
    destruct (literal_by_lang (get_literals g ont p) None).1 as [v|] eqn:Hc; [|done].
    destruct (truthy v) eqn:Ht; [|done]. intros [= <-].
    apply literal_by_lang_chosen_in, list_elem_of_filter in Hc as [Hlit Hin].
    apply elem_of_objects in Hin. by exists v. }
  assert (∀ ont p,
            (∀ v, (ont, p, v) ∈ triples g → is_Literal v = true → truthy v = false) →
            match (literal_by_lang (get_literals g ont p) None).1 with
            | Some v => if truthy v then Some (str v) else None
            | None => None
            end = None) as Hnone.
  { intros ont p Hfalse.
    destruct (literal_by_lang (get_literals g ont p) None).1 as [v|] eqn:Hc; [|done].
    apply literal_by_lang_chosen_in, list_elem_of_filter in Hc as [Hlit Hin].
    apply elem_of_objects in Hin. by rewrite (Hfalse v Hin Hlit). }
  split.
  - intros Hno. unfold collect_ontology_info. by rewrite Hno.
  - intros ont rest Hont. unfold collect_ontology_info. rewrite Hont. simpl.
    split; [done|]. split; [apply Hsome|]. split; [apply Hsome|].
    split; apply Hnone.
Qed.

(** X3.  One descriptor per subject.  However often and under however many
    type assertions a subject is listed, the class list holds the
    descriptors of the distinct subjects typed owl:Class, one each, and
    the property list those of the distinct subjects typed as an object,
    datatype or generic property, one each. *)
Theorem one_descriptor_per_subject (g : Graph) :
  (∃ l, NoDup l
        ∧ (∀ s, s ∈ l ↔ (s, RDF_type, OWL_Class) ∈ triples g)
        ∧ collect_classes str_lower g ≡ₚ class_info g <$> l
        ∧ length (collect_classes str_lower g) = length l)
  ∧ (∃ l, NoDup l
          ∧ (∀ s, s ∈ l ↔ typed_as_property g s)
          ∧ collect_properties str_lower g ≡ₚ property_info g <$> l
          ∧ length (collect_properties str_lower g) = length l).
Proof.
  split.
  - exists (elements (class_subjects g)). split; [apply NoDup_elements|].
    split; [intros s; by rewrite elem_of_elements, elem_of_class_subjects|].
    unfold collect_classes, collect_classes_in.
    split; [apply py_sort_perm|]. by rewrite py_sort_perm, length_fmap.
  - exists (elements (property_subjects g)). split; [apply NoDup_elements|].
    split; [intros s; by rewrite elem_of_elements, elem_of_property_subjects|].
    unfold collect_properties, collect_properties_in.
    split; [apply py_sort_perm|]. by rewrite py_sort_perm, length_fmap.
Qed.

(** X4.  The property list is in ascending order of the pair made of the
    lowercased label and the compact name of a descriptor, label
    first; and the order in which the set of property subjects is
    visited does not show: the sequence of these pairs is always the
    same, and so is the whole list when no two descriptors share a
    pair. *)
Theorem collect_properties_sorted (g : Graph) :
  let pair_of :=
    λ x : PropertyInfo.t, (str_lower (PropertyInfo.label x), PropertyInfo.qname x) in
  StronglySorted
    (λ x y,
       String_as_OT.lt (str_lower (PropertyInfo.label x)) (str_lower (PropertyInfo.label y))
       ∨ (str_lower (PropertyInfo.label x) = str_lower (PropertyInfo.label y)
          ∧ (PropertyInfo.qname x = PropertyInfo.qname y
             ∨ String_as_OT.lt (PropertyInfo.qname x) (PropertyInfo.qname y))))
    (collect_properties str_lower g)
  ∧ (∀ order, order ≡ₚ elements (property_subjects g) →
       pair_of <$> collect_properties_in str_lower g order
       = pair_of <$> collect_properties str_lower g
       ∧ (NoDup (pair_of <$> collect_properties str_lower g) →
          collect_properties_in str_lower g order = collect_properties str_lower g)).
Proof.
  simpl. split.
  - apply (py_sort_tuple_sorted
             (λ x : PropertyInfo.t, (str_lower (PropertyInfo.label x), PropertyInfo.qname x))).
  - intros order Hp. unfold collect_properties, collect_properties_in. split.
    + apply (py_sort_keys_perm tuple_lt
               (λ x : PropertyInfo.t, (str_lower (PropertyInfo.label x), PropertyInfo.qname x))
               tuple_lt_irrefl tuple_lt_trans tuple_lt_total).
      by apply fmap_Permutation.
    + intros Hnd.
      apply (py_sort_perm_eq tuple_lt
               (λ x : PropertyInfo.t, (str_lower (PropertyInfo.label x), PropertyInfo.qname x))
               tuple_lt_irrefl tuple_lt_trans tuple_lt_total).
      * by apply fmap_Permutation.
      * unfold collect_properties, collect_properties_in in Hnd.
        rewrite py_sort_perm in Hnd. by rewrite Hp.
Qed.

(** X5.  The display label of a subject is its compact name or the text of
    one of its label literals, and then of one whose truth value is
    true: a subject all of whose label literals are false (empty, say)
    is labelled with its compact name, like one without labels. *)
Theorem display_label_source (g : Graph) (s : Node) :
  (display_label g s = qname g s
   ∨ ∃ v, (s, RDFS_label, v) ∈ triples g ∧ is_Literal v = true
          ∧ truthy v = true ∧ display_label g s = str v)
  ∧ ((∀ v, (s, RDFS_label, v) ∈ triples g → is_Literal v = true → truthy v = false) →
     display_label g s = qname g s)
  ∧ ClassInfo.label (class_info g s) = display_label g s
  ∧ PropertyInfo.label (property_info g s) = display_label g s.
Proof.
  split; [|split; [|by split]].
  - unfold display_label. simpl.
    destruct (literal_by_lang (get_literals g s RDFS_label) None).1 as [v|] eqn:Hc;
      [|by left].
    apply literal_by_lang_chosen_in, list_elem_of_filter in Hc as [Hlit Hin].
    apply elem_of_objects in Hin.
    destruct (truthy v) eqn:Ht; [|by left]. right. by exists v.
  - intros Hfalse. unfold display_label. simpl.
    destruct (literal_by_lang (get_literals g s RDFS_label) None).1 as [v|] eqn:Hc;
      [|done].
    apply literal_by_lang_chosen_in, list_elem_of_filter in Hc as [Hlit Hin].
    apply elem_of_objects in Hin. by rewrite (Hfalse v Hin Hlit).
Qed.

(** X6.  The name lists of a descriptor (parent classes, domain, range,
    parent properties) hold the compact names of the objects that are
    URIs, one entry per such triple and in the order of the store; an
    object that is a blank node or a literal contributes nothing. *)
Theorem qnames_of_objects_uris (g : Graph) (s p : Node) :
  (∀ x, x ∈ qnames_of_objects g s p ↔
        ∃ o, (s, p, o) ∈ triples g ∧ is_URIRef o = true ∧ x = qname g o)
  ∧ length (qnames_of_objects g s p)
    = length (filter (λ t : Triple, t.1.1 = s ∧ t.1.2 = p ∧ is_URIRef t.2 = true)
                (triples g))
  ∧ ((∀ o, (s, p, o) ∈ triples g → is_URIRef o = false) → qnames_of_objects g s p = [])
  ∧ ClassInfo.subClassOf (class_info g s) = qnames_of_objects g s RDFS_subClassOf
  ∧ PropertyInfo.domain (property_info g s) = qnames_of_objects g s RDFS_domain
  ∧ PropertyInfo.range (property_info g s) = qnames_of_objects g s RDFS_range
  ∧ PropertyInfo.subPropertyOf (property_info g s)
    = qnames_of_objects g s RDFS_subPropertyOf.
Proof.
  split; [|split; [|split]]; [| | |done].
  - intros x. unfold qnames_of_objects. rewrite list_elem_of_fmap. split.
    + intros (o & -> & Ho). apply list_elem_of_filter in Ho as [Hu Ho].
      apply elem_of_objects in Ho. by exists o.
    + intros (o & Ho & Hu & ->). exists o. split; [done|].
      apply list_elem_of_filter. split; [done|]. by apply elem_of_objects.
  - unfold qnames_of_objects, objects. rewrite length_fmap.
    induction (triples g) as [|t ts IH]; [done|].
    rewrite !filter_cons.
    destruct (decide (t.1.1 = s ∧ t.1.2 = p)) as [Hsp|Hsp].
    + rewrite fmap_cons, filter_cons.
      destruct (decide (is_URIRef t.2 = true)) as [Hu|Hu].
      * rewrite decide_True by tauto. simpl. by rewrite IH.
      * rewrite decide_False by tauto. done.
    + rewrite decide_False by tauto. done.
  - intros Hno. unfold qnames_of_objects.
    destruct (filter _ (objects g s p)) as [|o l] eqn:Hf; [done|].
    assert (o ∈ o :: l) as Hin by left. rewrite <- Hf in Hin.
    apply list_elem_of_filter in Hin as [Hu Hin].
    apply elem_of_objects, Hno in Hin. congruence.
Qed.
End extractor_more.

Section selection_more.
Context `{Rdflib}.

Lemma first_preferred_app (m : gmap (option string) Node) before lang after r :
  (∀ l, l ∈ before → m !! Some l = None) →
  m !! Some lang = Some r →
  first_preferred m (before ++ lang :: after)%list = Some r.
Proof.
  intros Hb Hr. induction before as [|l before IH]; simpl.
  - by rewrite Hr.
  - rewrite Hb by left. apply IH. intros l' Hl'. apply Hb. by right.
Qed.

(** X7.  Selection with an explicit preference list: the languages are tried
    in the order of the list, whatever the order of the literals, and
    the first language that some literal carries decides; among the
    literals of that language the last one of the list is returned.
    When no literal carries any of the languages the first element of
    the list is returned, and nothing on the empty list. *)
Theorem literal_by_lang_preference_order
    (values : list Node) (lang0 : string) (others : list string) :
  let preferred := lang0 :: others in
  let chosen := (literal_by_lang values (Some preferred)).1 in
  (∀ before lang after r,
     preferred = (before ++ lang :: after)%list →
     (∀ l v, l ∈ before → v ∈ values → is_Literal v = true →
             node_language v ≠ Some l) →
     last (filter (λ v, node_language v = Some lang)
             (filter (λ v, is_Literal v = true) values)) = Some r →
     chosen = Some r)
  ∧ ((∀ l v, l ∈ preferred → v ∈ values → is_Literal v = true →
             node_language v ≠ Some l) →
     chosen = head values)
  ∧ (∀ r, chosen = Some r → r ∈ values).
Proof.
  simpl. split; [|split].
  - intros before lang after r Hpref Hbefore Hlast.
    unfold literal_by_lang. rewrite Hpref.
    rewrite (first_preferred_app _ before lang after r); [done| |].
    + intros l Hl. apply by_lang_of_None. intros (v & Hv & Hlit & Hlang).
      by apply (Hbefore l v).
    + by rewrite by_lang_of_lookup.
  - intros Hnone. unfold literal_by_lang.
    assert (first_preferred (by_lang_of values) (lang0 :: others) = None) as ->; [|done].
    apply first_preferred_None. intros l Hl.
    apply by_lang_of_None. intros (v & Hv & Hlit & Hlang).
    by apply (Hnone l v).
  - intros r. apply literal_by_lang_chosen_in.
Qed.

Lemma used_prefixes_step_fold (terms : list Node) (nm : NamespaceManager)
    (used : gset string) (p : string) :
  p ∈ (foldl used_prefixes_step (nm, used) terms).2 →
  p ∈ used
  ∨ ∃ term nm0 nm1 ns local,
      term ∈ terms ∧ is_URIRef term = true
      ∧ compute_qname nm0 term = (nm1, Some (Some p, ns, local)).
Proof.
  revert nm used. induction terms as [|term terms IH]; intros nm used; simpl.
  - by left.
  - destruct (used_prefixes_step (nm, used) term) as [nm' used'] eqn:Hstep.
    intros Hp. apply IH in Hp as [Hp|Hp].
    + unfold used_prefixes_step in Hstep. simpl in Hstep.
      destruct (is_URIRef term) eqn:Hu; [|left; congruence].
      destruct (compute_qname nm term) as [nm1 [[[[q|] ns] local]|]] eqn:Hq;
        simplify_eq; try by left.
      apply elem_of_union in Hp as [Hp|Hp]; [|by left].
      apply elem_of_singleton in Hp as ->. right.
      exists term, nm, nm', ns, local. split; [left|]. done.
    + right. destruct Hp as (t & nm0 & nm1 & ns & local & Hin & Hu & Hq).
      exists t, nm0, nm1, ns, local. split; [by right|]. done.
Qed.

(** X8.  The prefix list of the catalogue is in ascending order of the prefix
    shown; no entry shows an empty prefix, the default prefix being
    shown as ":"; every entry stands for a binding of the namespace
    manager whose prefix [compute_qname] reported for some URI of the
    graph; and a graph without triples has no entry at all. *)
Theorem compute_used_prefixes_sorted (g : Graph) :
  StronglySorted str_le (entry_prefix <$> compute_used_prefixes g)
  ∧ (∀ e, e ∈ compute_used_prefixes g → entry_prefix e ≠ "")
  ∧ (∀ e, e ∈ compute_used_prefixes g →
       ∃ prefix term nm0 nm1 ns local,
         entry_prefix e = (if bool_decide (prefix = "") then ":" else prefix)
         ∧ (∃ t, t ∈ triples g ∧ (term = t.1.1 ∨ term = t.1.2 ∨ term = t.2))
         ∧ is_URIRef term = true
         ∧ compute_qname nm0 term = (nm1, Some (Some prefix, ns, local)))
  ∧ (triples g = [] → compute_used_prefixes g = []).
Proof.
  unfold compute_used_prefixes. split; [|split; [|split]].
  - apply py_sort_str_sorted.
  - intros e He. apply elem_of_py_sort, list_elem_of_fmap in He as (b & -> & _).
    simpl. case_bool_decide; [done|]. done.
  - intros e He. apply elem_of_py_sort, list_elem_of_fmap in He as (b & -> & Hb).
    apply list_elem_of_filter in Hb as [Hused _]. simpl in Hused.
    apply used_prefixes_step_fold in Hused as [Hused|Hused];
      [by apply not_elem_of_empty in Hused|].
    destruct Hused as (term & nm0 & nm1 & ns & local & Hin & Hu & Hq).
    exists b.1, term, nm0, nm1, ns, local. split; [done|]. split; [|done].
    apply list_elem_of_In, in_flat_map in Hin as (t & Ht & Hterm).
    exists t. split; [by apply list_elem_of_In|].
    simpl in Hterm. destruct Hterm as [<-|[<-|[<-|[]]]]; auto.
  - intros Hnil. rewrite Hnil. simpl.
    induction (namespaces (namespace_manager g)) as [|b l IH]; [done|].
    rewrite filter_cons, decide_False by set_solver. exact IH.
Qed.
End selection_more.

(** ** More on the loader *)

Section loader_more.
Context `{Platform}.
Variable str_lower : string → string.

Lemma collect_ontology_info_triples (g1 g2 : Graph) :
  triples g1 = triples g2 → collect_ontology_info g1 = collect_ontology_info g2.
Proof.
  intros Ht. unfold collect_ontology_info, get_literals, subjects, objects.
  by rewrite Ht.
Qed.

Lemma ensure_common_prefixes_invariant (P : NamespaceManager → Prop) (g : Graph) :
  (∀ nm prefix ns, P nm → P (nm_bind nm prefix ns false).1) →
  P (namespace_manager g) → P (namespace_manager (ensure_common_prefixes g)).
Proof.
  intros Hbind. unfold ensure_common_prefixes.
  generalize common. intros l. revert g.
  induction l as [|b l IH]; intros g Hg; simpl; [done|].
  apply IH. simpl. by apply Hbind.
Qed.

Lemma ensure_default_prefix_invariant (P : NamespaceManager → Prop) (g : Graph) o :
  (∀ nm prefix ns, P nm → P (nm_bind nm prefix ns false).1) →
  P (namespace_manager g) → P (namespace_manager (ensure_default_prefix g o)).
Proof.
  intros Hbind Hg. destruct o as [[|c s]|]; simpl; [done| |done].
  by apply Hbind.
Qed.

(** X9.  What loading does to a graph.  The graph returned has the triples
    the parser produced, all of them and no other, hence also the same
    ontology header; its namespace manager is the parser's after calls
    of [bind] with [replace=False] only, so whatever such calls
    preserve holds of it.  A failure of the parser is passed on. *)
Theorem load_graph_keeps_triples (files : FS) (path : Path) :
  (∀ g', load_graph str_lower files path = Ok g' →
     ∃ fmt parsed,
       detect_format str_lower path = Some fmt
       ∧ parse files path fmt = Some parsed
       ∧ triples g' = triples parsed
       ∧ collect_ontology_info g' = collect_ontology_info parsed
       ∧ (∀ P : NamespaceManager → Prop,
            (∀ nm prefix ns, P nm → P (nm_bind nm prefix ns false).1) →
            P (namespace_manager parsed) → P (namespace_manager g')))
  ∧ (∀ fmt, detect_format str_lower path = Some fmt →
       parse files path fmt = None →
       load_graph str_lower files path = Raise (ExternalError "Graph.parse")).
Proof.
  unfold load_graph, parse_and_bind. split.
  - intros g'. destruct (detect_format str_lower path) as [fmt|]; [|done].
    destruct (parse files path fmt) as [parsed|] eqn:Hp; [|done].
    intros [= <-]. exists fmt, parsed. split; [done|]. split; [done|].
    split; [by rewrite triples_ensure_default_prefix|]. split.
    + apply collect_ontology_info_triples.
      by rewrite triples_ensure_default_prefix.
    + intros P Hbind HP.
      by apply ensure_default_prefix_invariant, ensure_common_prefixes_invariant.
  - intros fmt -> Hp. by rewrite Hp.
Qed.

(** X10.  The namespace derived from an ontology identifier always ends in
    "#" or "/", it is the identifier itself or the identifier followed
    by "#", and deriving it again changes nothing. *)
Theorem base_ns_ends_in_separator (iri : string) :
  ((∃ p, base_ns iri = p ++ "#") ∨ (∃ p, base_ns iri = p ++ "/"))
  ∧ (base_ns iri = iri ∨ base_ns iri = iri ++ "#")
  ∧ base_ns (base_ns iri) = base_ns iri.
Proof.
  assert ((∃ p, base_ns iri = p ++ "#") ∨ (∃ p, base_ns iri = p ++ "/")) as Hend.
  { unfold base_ns.
    destruct (endswith iri "#") eqn:Hh; simpl.
    { left. by apply endswith_spec. }
    destruct (endswith iri "/") eqn:Hs; simpl.
    { right. by apply endswith_spec. }
    left. by exists iri. }
  split; [exact Hend|]. split.
  - unfold base_ns. destruct (endswith iri "#" || endswith iri "/"); auto.
  - by apply base_ns_spec.
Qed.
End loader_more.

(** ** More on the serialiser, the renderer and the conversion of one file *)

Section conversion_more.
Context `{Platform}.
Variable str_lower : string → string.

#[local] Existing Instance M_ret.
#[local] Existing Instance M_bind.

(** A computation that prints nothing. *)
Definition silent {A} (c : M A) : Prop := ∀ w, stdout (c w).1 = stdout w.

(** A computation whose exceptions all come from library calls. *)
Definition external_only {A} (c : M A) : Prop :=
  ∀ w w' e, c w = (w', Raise e) → ∃ origin, e = ExternalError origin.

Lemma bind_inv {A B} (c : M A) (k : A → M B) w w' r :
  (c ≫= k) w = (w', r) →
  (∃ w1 a, c w = (w1, Ok a) ∧ k a w1 = (w', r))
  ∨ (∃ e, c w = (w', Raise e) ∧ r = Raise e).
Proof.
  unfold mbind, M_bind, bind. destruct (c w) as [w1 [a|e]].
  - intros Hk. left. by exists w1, a.
  - intros [= <- <-]. right. by exists e.
Qed.

Lemma silent_bind {A B} (c : M A) (k : A → M B) :
  silent c → (∀ a, silent (k a)) → silent (c ≫= k).
Proof.
  intros Hc Hk w. unfold mbind, M_bind, bind.
  specialize (Hc w). destruct (c w) as [w1 [a|e]]; simpl in *; [|done].
  by rewrite Hk.
Qed.

Lemma silent_ret {A} (a : A) : silent (ret a).
Proof. done. Qed.

Lemma silent_fs_op origin f : silent (fs_op origin f).
Proof. done. Qed.

Lemma silent_fs_call {A} origin (f : FS → option A) : silent (fs_call origin f).
Proof. done. Qed.

Lemma silent_read_result {A} (f : FS → result A) : silent (read_result f).
Proof. done. Qed.

Lemma external_only_bind {A B} (c : M A) (k : A → M B) :
  external_only c → (∀ a, external_only (k a)) → external_only (c ≫= k).
Proof.
  intros Hc Hk w w' e [(w1 & a & _ & Hr)|(e' & Hr & [= <-])]%bind_inv.
  - by eapply Hk.
  - by eapply Hc.
Qed.

Lemma external_only_ret {A} (a : A) : external_only (ret a).
Proof. by intros w w' e. Qed.

Lemma external_only_print line : external_only (print line).
Proof. by intros w w' e. Qed.

Lemma external_only_fs_op origin f : external_only (fs_op origin f).
Proof.
  intros w w' e. unfold fs_op. destruct (f (fs w)) as [f1 [|]]; simpl; [done|].
  intros [= _ <-]. by exists origin.
Qed.

Lemma external_only_fs_call {A} origin (f : FS → option A) :
  external_only (fs_call origin f).
Proof.
  intros w w' e. unfold fs_call, call. destruct (f (fs w)); [done|].
  intros [= _ <-]. by exists origin.
Qed.

Lemma external_only_for_each {A} (xs : list A) (body : A → M unit) :
  (∀ x, external_only (body x)) → external_only (for_each xs body).
Proof.
  intros Hb. induction xs as [|x xs IH]; simpl.
  - apply external_only_ret.
  - apply external_only_bind; [apply Hb|]. by intros _.
Qed.

Lemma silent_serialise_graph graph dest_dir base_name :
  silent (serialise_graph graph dest_dir base_name).
Proof.
  unfold serialise_graph.
  repeat (apply silent_bind; [apply silent_fs_op|intros _]).
  apply silent_ret.
Qed.

Lemma external_only_serialise_graph graph dest_dir base_name :
  external_only (serialise_graph graph dest_dir base_name).
Proof.
  unfold serialise_graph.
  repeat (apply external_only_bind; [apply external_only_fs_op|intros _]).
  apply external_only_ret.
Qed.

Lemma serialise_graph_outputs graph dest_dir base_name w w' outputs :
  serialise_graph graph dest_dir base_name w = (w', Ok outputs) →
  outputs = [("ttl", joinpath dest_dir (base_name ++ ".ttl"));
             ("jsonld", joinpath dest_dir (base_name ++ ".jsonld"));
             ("owl", joinpath dest_dir (base_name ++ ".owl"))].
Proof.
  unfold serialise_graph. intros Hrun.
  repeat (apply bind_inv in Hrun as [(? & [] & _ & Hrun)|(? & _ & [=])]).
  unfold ret in Hrun. by injection Hrun as _ <-.
Qed.

Lemma silent_render_html graph base_name tp out src :
  silent (render_html str_lower graph base_name tp out src).
Proof.
  unfold render_html.
  apply silent_bind; [apply silent_fs_call|intros tmpl].
  apply silent_bind; [apply silent_fs_call|intros html].
  apply silent_bind; [apply silent_fs_op|intros _]. apply silent_fs_op.
Qed.

Lemma external_only_render_html graph base_name tp out src :
  external_only (render_html str_lower graph base_name tp out src).
Proof.
  unfold render_html.
  apply external_only_bind; [apply external_only_fs_call|intros tmpl].
  apply external_only_bind; [apply external_only_fs_call|intros html].
  apply external_only_bind; [apply external_only_fs_op|intros _].
  apply external_only_fs_op.
Qed.

(** X12.  The serialiser.  It prints nothing and raises nothing of its own.
    It makes the destination directory, then writes Turtle, JSON-LD
    and RDF/XML in this order, each call working on what the call
    before left, and on success returns the three paths under the keys
    ttl, jsonld and owl, in this order.  The first call that fails ends
    it: when the directory cannot be made nothing is serialised, and
    when Turtle fails the other two formats are not attempted. *)
Theorem serialise_graph_outcome (graph : Graph) (dest_dir : Path)
    (base_name : string) (w : World) :
  let ttl := joinpath dest_dir (base_name ++ ".ttl") in
  let jsonld := joinpath dest_dir (base_name ++ ".jsonld") in
  let owl := joinpath dest_dir (base_name ++ ".owl") in
  silent (serialise_graph graph dest_dir base_name)
  ∧ external_only (serialise_graph graph dest_dir base_name)
  ∧ (∀ w' outputs,
       serialise_graph graph dest_dir base_name w = (w', Ok outputs) →
       outputs = [("ttl", ttl); ("jsonld", jsonld); ("owl", owl)]
       ∧ ∃ f1 f2 f3,
           mkdir (fs w) dest_dir = (f1, true)
           ∧ serialize f1 graph ttl "turtle" = (f2, true)
           ∧ serialize f2 graph jsonld "json-ld" = (f3, true)
           ∧ serialize f3 graph owl "xml" = (fs w', true))
  ∧ ((mkdir (fs w) dest_dir).2 = false →
       serialise_graph graph dest_dir base_name w
       = (mkWorld (mkdir (fs w) dest_dir).1 (stdout w),
          Raise (ExternalError "mkdir")))
  ∧ (∀ f1, mkdir (fs w) dest_dir = (f1, true) →
       (serialize f1 graph ttl "turtle").2 = false →
       serialise_graph graph dest_dir base_name w
       = (mkWorld (serialize f1 graph ttl "turtle").1 (stdout w),
          Raise (ExternalError "serialize"))).
Proof.
  simpl. split; [apply silent_serialise_graph|].
  split; [apply external_only_serialise_graph|].
  unfold serialise_graph, mbind, M_bind, bind, fs_op, ret. simpl.
  split; [|split].
  - intros w' outputs.
    destruct (mkdir (fs w) dest_dir) as [f1 [|]] eqn:H1; simpl; [|done].
    destruct (serialize f1 graph _ "turtle") as [f2 [|]] eqn:H2; simpl; [|done].
    destruct (serialize f2 graph _ "json-ld") as [f3 [|]] eqn:H3; simpl; [|done].
    destruct (serialize f3 graph _ "xml") as [f4 [|]] eqn:H4; simpl; [|done].
    intros [= <- <-]. split; [done|]. by exists f1, f2, f3.
  - destruct (mkdir (fs w) dest_dir) as [f1 [|]]; simpl; done.
  - intros f1 -> Hfail. simpl.
    destruct (serialize f1 graph _ "turtle") as [f2 [|]]; simpl in *; done.
Qed.

(** X13.  The renderer.  It prints nothing and raises nothing of its own.
    The template is loaded first and rendered next; when either fails
    the file system is left as it was.  On success the document
    written to the output path is what the template renders from the
    header, the class list, the property list and the prefix list of
    the graph, the base name and the source path, and the only other
    change is the making of the output's directory. *)
Theorem render_html_outcome (graph : Graph) (base_name : string)
    (template_path output_path source_path : Path) (w : World) :
  let views :=
    mkTemplateArgs (collect_ontology_info graph) (collect_classes str_lower graph)
      (collect_properties str_lower graph) (compute_used_prefixes graph)
      base_name source_path in
  let run_it := render_html str_lower graph base_name template_path output_path source_path in
  silent run_it
  ∧ external_only run_it
  ∧ (get_template (fs w) (parent template_path) (name template_path) = None →
       run_it w = (w, Raise (ExternalError "get_template")))
  ∧ (∀ tmpl,
       get_template (fs w) (parent template_path) (name template_path) = Some tmpl →
       render tmpl views = None →
       run_it w = (w, Raise (ExternalError "render")))
  ∧ (∀ w', run_it w = (w', Ok tt) →
       ∃ tmpl html f1,
         get_template (fs w) (parent template_path) (name template_path) = Some tmpl
         ∧ render tmpl views = Some html
         ∧ mkdir (fs w) (parent output_path) = (f1, true)
         ∧ write_text f1 output_path html = (fs w', true)).
Proof.
  simpl. split; [apply silent_render_html|].
  split; [apply external_only_render_html|].
  unfold render_html, mbind, M_bind, bind, fs_call, fs_op, call. simpl.
  split; [|split].
  - by intros ->.
  - intros tmpl -> Hr. by rewrite Hr.
  - intros w'.
    destruct (get_template _ _ _) as [tmpl|]; simpl; [|done].
    destruct (render tmpl _) as [html|] eqn:Hr; simpl; [|done].
    destruct (mkdir (fs w) _) as [f1 [|]] eqn:H1; simpl; [|done].
    destruct (write_text f1 _ html) as [f2 [|]] eqn:H2; simpl; [|done].
    intros [= <-]. exists tmpl, html, f1. by split_and!.
Qed.

Lemma silent_convert_file path sd dd tp :
  silent (convert_file str_lower path sd dd tp).
Proof.
  unfold convert_file.
  apply silent_bind; [apply silent_read_result|intros graph].
  apply silent_bind; [apply silent_fs_call|intros rel].
  apply silent_bind; [apply silent_serialise_graph|intros outs].
  apply silent_bind; [apply silent_render_html|intros _]. apply silent_ret.
Qed.

Lemma convert_file_raise path sd dd tp w w' e :
  convert_file str_lower path sd dd tp w = (w', Raise e) →
  (e = unsupported path ∧ detect_format str_lower path = None ∧ w' = w)
  ∨ ∃ origin, e = ExternalError origin.
Proof.
  unfold convert_file.
  intros [(w1 & graph & Hload & Hrest)|(e' & Hload & [= <-])]%bind_inv.
  - right. revert Hrest.
    apply (external_only_bind (fs_call "relative_to" _)); [apply external_only_fs_call|].
    intros rel.
    apply external_only_bind; [apply external_only_serialise_graph|intros outs].
    apply external_only_bind; [apply external_only_render_html|intros _].
    apply external_only_ret.
  - unfold read_result in Hload. injection Hload as <- Hl.
    unfold load_graph in Hl.
    destruct (detect_format str_lower path) as [fmt|] eqn:Hd.
    + right. unfold parse_and_bind in Hl.
      destruct (parse (fs w) path fmt); [done|]. injection Hl as <-. by eexists.
    + left. by injection Hl as <-.
Qed.

Lemma convert_file_ok path sd dd tp w w' outputs :
  convert_file str_lower path sd dd tp w = (w', Ok outputs) →
  ∃ graph relative,
    load_graph str_lower (fs w) path = Ok graph
    ∧ relative_to path sd = Some relative
    ∧ outputs = [("ttl", joinpath (joinpath dd (parent relative)) (stem relative ++ ".ttl"));
                 ("jsonld", joinpath (joinpath dd (parent relative)) (stem relative ++ ".jsonld"));
                 ("owl", joinpath (joinpath dd (parent relative)) (stem relative ++ ".owl"));
                 ("html", joinpath (joinpath dd (parent relative)) (stem relative ++ ".html"))].
Proof.
  unfold convert_file.
  intros [(w1 & graph & Hload & Hrest)|(e' & _ & [=])]%bind_inv.
  unfold read_result in Hload. injection Hload as <- Hl.
  apply bind_inv in Hrest as [(w2 & rel & Hrel & Hrest)|(e' & _ & [=])].
  unfold fs_call, call in Hrel.
  destruct (relative_to path sd) as [rel'|] eqn:Hr; [|done].
  injection Hrel as <- <-.
  apply bind_inv in Hrest as [(w3 & outs & Hser & Hrest)|(e' & _ & [=])].
  apply bind_inv in Hrest as [(w4 & [] & Hren & Hret)|(e' & _ & [=])].
  injection Hret as <- <-.
  apply serialise_graph_outputs in Hser as ->.
  by exists graph, rel'.
Qed.

(** X14.  The conversion of one file.  It prints nothing.  When loading
    fails, be it for the extension or in the parser, the world is left
    exactly as it was: no directory is made and no file written.  A
    [ValueError] can only be the loader's unsupported-extension error
    and a [FileNotFoundError] never comes out of it.  On success it
    returns four paths under the keys ttl, jsonld, owl and html, in this
    order, all in the directory that mirrors the file's place under the
    source directory and all named after the file's stem. *)
Theorem convert_file_outcome (path source_dir deployment_dir template_path : Path)
    (w : World) :
  let run_it := convert_file str_lower path source_dir deployment_dir template_path in
  silent run_it
  ∧ (∀ e, load_graph str_lower (fs w) path = Raise e → run_it w = (w, Raise e))
  ∧ (∀ w' e, run_it w = (w', Raise e) →
       (e = unsupported path ∧ detect_format str_lower path = None ∧ w' = w)
       ∨ ∃ origin, e = ExternalError origin)
  ∧ (∀ w' outputs, run_it w = (w', Ok outputs) →
       ∃ graph relative,
         load_graph str_lower (fs w) path = Ok graph
         ∧ relative_to path source_dir = Some relative
         ∧ let dest_dir := joinpath deployment_dir (parent relative) in
           let base_name := stem relative in
           outputs = [("ttl", joinpath dest_dir (base_name ++ ".ttl"));
                      ("jsonld", joinpath dest_dir (base_name ++ ".jsonld"));
                      ("owl", joinpath dest_dir (base_name ++ ".owl"));
                      ("html", joinpath dest_dir (base_name ++ ".html"))]).
Proof.
  simpl. split; [apply silent_convert_file|]. split; [|split].
  - intros e He. unfold convert_file, mbind, M_bind, bind, read_result.
    by rewrite He.
  - intros w' e Hrun. by apply convert_file_raise in Hrun.
  - intros w' outputs Hrun. by apply convert_file_ok in Hrun.
Qed.
End conversion_more.

(** ** More on the driver *)

Section driver_more.
Context `{Platform}.
Variable str_lower : string → string.

#[local] Existing Instance M_ret.
#[local] Existing Instance M_bind.

Lemma for_each_app {A} (xs ys : list A) (body : A → M unit) w :
  for_each (xs ++ ys)%list body w
  = match for_each xs body w with
    | (w1, Ok _) => for_each ys body w1
    | (w1, Raise e) => (w1, Raise e)
    end.
Proof.
  revert w. induction xs as [|x xs IH]; intros w; simpl; [done|].
  unfold mbind, M_bind, bind.
  destruct (body x w) as [w1 [[]|e]]; [apply IH|done].
Qed.

Lemma for_each_raise_inv {A} (xs : list A) (body : A → M unit) w w' e :
  for_each xs body w = (w', Raise e) →
  ∃ before x after w1,
    xs = (before ++ x :: after)%list
    ∧ for_each before body w = (w1, Ok tt)
    ∧ body x w1 = (w', Raise e).
Proof.
  revert w. induction xs as [|x xs IH]; intros w; simpl; [done|].
  intros [(w1 & [] & Hx & Hrest)|(e' & Hx & [= <-])]%bind_inv.
  - apply IH in Hrest as (before & y & after & w2 & -> & Hbefore & Hy).
    exists (x :: before), y, after, w2. split; [done|]. split; [|done].
    simpl. unfold mbind, M_bind, bind. by rewrite Hx.
  - exists [], x, xs, w. done.
Qed.

(** The line printed for one output of a converted file. *)
Definition report_line (deployment_dir : Path) (o : string * Path) : M unit :=
  out_rel ← fs_call "relative_to" (λ _, relative_to o.2 deployment_dir);
  print ("  • " ++ o.1 ++ ": " ++ out_rel).

Lemma report_line_inv dd (o : string * Path) w w' :
  report_line dd o w = (w', Ok tt) →
  ∃ r, relative_to o.2 dd = Some r
       ∧ w' = mkWorld (fs w) (stdout w ++ [("  • " ++ o.1 ++ ": " ++ r)%string])%list.
Proof.
  unfold report_line, mbind, M_bind, bind, fs_call, call, print.
  destruct (relative_to o.2 dd) as [r|]; simpl; [|done].
  intros [= <-]. by exists r.
Qed.

Lemma external_only_report_line dd o : external_only (report_line dd o).
Proof.
  apply external_only_bind; [apply external_only_fs_call|intros r].
  apply external_only_print.
Qed.

Lemma convert_and_report_ok sd dd tp path w w' :
  convert_and_report str_lower sd dd tp path w = (w', Ok tt) →
  ∃ rel w1 outputs r_ttl r_jsonld r_owl r_html,
    relative_to path sd = Some rel
    ∧ convert_file str_lower path sd dd tp
        (mkWorld (fs w) (stdout w ++ [("- " ++ rel)%string])%list) = (w1, Ok outputs)
    ∧ relative_to (joinpath (joinpath dd (parent rel)) (stem rel ++ ".ttl")) dd = Some r_ttl
    ∧ relative_to (joinpath (joinpath dd (parent rel)) (stem rel ++ ".jsonld")) dd = Some r_jsonld
    ∧ relative_to (joinpath (joinpath dd (parent rel)) (stem rel ++ ".owl")) dd = Some r_owl
    ∧ relative_to (joinpath (joinpath dd (parent rel)) (stem rel ++ ".html")) dd = Some r_html
    ∧ w' = mkWorld (fs w1)
             (stdout w1 ++ [("  • ttl: " ++ r_ttl)%string;
                            ("  • jsonld: " ++ r_jsonld)%string;
                            ("  • owl: " ++ r_owl)%string;
                            ("  • html: " ++ r_html)%string])%list.
Proof.
  unfold convert_and_report. intros Hrun.
  apply bind_inv in Hrun as [(w1 & rel & Hrel & Hrun)|(e & _ & [=])].
  unfold fs_call, call in Hrel.
  destruct (relative_to path sd) as [rel'|] eqn:Hr; [|done].
  injection Hrel as <- <-.
  apply bind_inv in Hrun as [(w2 & [] & Hp & Hrun)|(e & _ & [=])].
  unfold print in Hp. injection Hp as <-.
  apply bind_inv in Hrun as [(w3 & outs & Hc & Hrun)|(e & _ & [=])].
  pose proof Hc as Hc'.
  apply convert_file_ok in Hc' as (graph & rel2 & _ & Hrel2 & ->).
  rewrite Hr in Hrel2. injection Hrel2 as <-.
  simpl in Hrun.
  apply bind_inv in Hrun as [(w4 & [] & H1 & Hrun)|(e & _ & [=])].
  apply (report_line_inv dd (_, _)) in H1 as (r1 & Hr1 & ->).
  apply bind_inv in Hrun as [(w5 & [] & H2 & Hrun)|(e & _ & [=])].
  apply (report_line_inv dd (_, _)) in H2 as (r2 & Hr2 & ->).
  apply bind_inv in Hrun as [(w6 & [] & H3 & Hrun)|(e & _ & [=])].
  apply (report_line_inv dd (_, _)) in H3 as (r3 & Hr3 & ->).
  apply bind_inv in Hrun as [(w7 & [] & H4 & Hrun)|(e & _ & [=])].
  apply (report_line_inv dd (_, _)) in H4 as (r4 & Hr4 & ->).
  injection Hrun as <-. simpl in *.
  eexists rel', w3, _, r1, r2, r3, r4. split_and!; try done.
  by rewrite <- !(assoc_L (++)%list).
Qed.

(** X15.  One round of the loop.  When it completes it has printed five
    lines after whatever was printed before: the file's path relative
    to the source directory, then one line for each of ttl, jsonld, owl
    and html, in this order, with the output's path relative to the
    deployment directory. *)
Theorem convert_and_report_prints (sd dd tp path : Path) (w w' : World) :
  convert_and_report str_lower sd dd tp path w = (w', Ok tt) →
  ∃ rel r_ttl r_jsonld r_owl r_html,
    relative_to path sd = Some rel
    ∧ relative_to (joinpath (joinpath dd (parent rel)) (stem rel ++ ".ttl")) dd = Some r_ttl
    ∧ relative_to (joinpath (joinpath dd (parent rel)) (stem rel ++ ".jsonld")) dd = Some r_jsonld
    ∧ relative_to (joinpath (joinpath dd (parent rel)) (stem rel ++ ".owl")) dd = Some r_owl
    ∧ relative_to (joinpath (joinpath dd (parent rel)) (stem rel ++ ".html")) dd = Some r_html
    ∧ stdout w'
      = (stdout w ++ [("- " ++ rel)%string;
                      ("  • ttl: " ++ r_ttl)%string;
                      ("  • jsonld: " ++ r_jsonld)%string;
                      ("  • owl: " ++ r_owl)%string;
                      ("  • html: " ++ r_html)%string])%list.
Proof.
  intros (rel & w1 & outputs & r1 & r2 & r3 & r4
          & Hrel & Hc & H1 & H2 & H3 & H4 & ->)%convert_and_report_ok.
  exists rel, r1, r2, r3, r4. split_and!; try done.
  pose proof (silent_convert_file str_lower path sd dd tp
                (mkWorld (fs w) (stdout w ++ [("- " ++ rel)%string])%list)) as Hsilent.
  rewrite Hc in Hsilent. simpl in *.
  by rewrite Hsilent, <- (assoc_L (++)%list).
Qed.

Lemma convert_and_report_raise sd dd tp path w w' e :
  convert_and_report str_lower sd dd tp path w = (w', Raise e) →
  (e = unsupported path ∧ detect_format str_lower path = None)
  ∨ ∃ origin, e = ExternalError origin.
Proof.
  unfold convert_and_report.
  intros [(w1 & rel & _ & Hrun)|(e' & Hrel & [= <-])]%bind_inv;
    [|right; by eapply external_only_fs_call].
  apply bind_inv in Hrun as [(w2 & [] & _ & Hrun)|(e' & Hp & [= <-])]; [|done].
  apply bind_inv in Hrun as [(w3 & outs & _ & Hrun)|(e' & Hc & [= <-])].
  - right. revert Hrun. apply external_only_for_each.
    intros o. apply (external_only_report_line dd o).
  - apply convert_file_raise in Hc as [(-> & Hd & _)|Hext]; [by left|by right].
Qed.

Lemma converts_all_lines sd dd tp paths w w' :
  converts_all str_lower sd dd tp paths w w' →
  length (stdout w') = (length (stdout w) + 5 * length paths)%nat.
Proof.
  induction 1 as [w|path rest w w1 w2 Hc _ IH]; simpl; [lia|].
  apply convert_and_report_ok in Hc
    as (rel & w3 & outputs & ? & ? & ? & ? & _ & Hc & _ & _ & _ & _ & ->).
  pose proof (silent_convert_file str_lower path sd dd tp
                (mkWorld (fs w) (stdout w ++ [("- " ++ rel)%string])%list)) as Hsilent.
  rewrite Hc in Hsilent. simpl in *.
  rewrite IH. simpl. rewrite length_app, Hsilent, length_app. simpl. lia.
Qed.

(** The driver, one decision after the other. *)
Lemma run_unfold (argv : option (list string)) (args : Namespace) (w : World) :
  parse_args argv = Some args →
  let files := fs w in
  let sd := resolve files (source_dir args) in
  let dd := resolve files (deployment_dir args) in
  let b := str_lower (lstrip_dot (basis args)) in
  let tp := resolve files (template args) in
  run str_lower argv w
  = if path_exists files tp
    then match discover files sd b with
         | [] => (mkWorld (fs w) (stdout w ++ [no_source_files_line ("*." ++ b) sd])%list,
                  Ok 1%Z)
         | found =>
             let started :=
               (stdout w ++ [converting_line (length found) sd b])%list in
             match mkdir files dd with
             | (fs1, true) =>
                 match for_each found (convert_and_report str_lower sd dd tp)
                         (mkWorld fs1 started) with
                 | (w1, Ok _) =>
                     (mkWorld (fs w1) (stdout w1 ++ [finished_line dd])%list, Ok 0%Z)
                 | (w1, Raise e) => (w1, Raise e)
                 end
             | (fs1, false) => (mkWorld fs1 started, Raise (ExternalError "mkdir"))
             end
         end
    else (w, Raise (FileNotFoundError ("Template not found: " ++ tp))).
Proof.
  intros Hargs. simpl.
  unfold run, mbind, M_bind, bind, fs_call, read_fs, call. rewrite Hargs. simpl.
  destruct (path_exists _ _); simpl; [|done].
  destruct (discover _ _ _) as [|p ps]; simpl; [done|].
  destruct (mkdir _ _) as [fs1 [|]]; simpl; [|done].
  unfold mbind, M_bind, bind.
  destruct (convert_and_report _ _ _ _ _ _) as [w1 [[]|e]]; [|done].
  by destruct (for_each ps _ _) as [w2 [[]|e]].
Qed.

(** X16.  What a returned status means.  The driver returns 0 or 1 and nothing
    else, and only with the template in place.  Status 1: discovery
    found nothing, the file system is untouched and one line was
    printed.  Status 0: discovery found files, the deployment directory
    was made, every round of the loop completed, and the final line
    was printed last. *)
Theorem run_status_meaning (argv : option (list string)) (w w' : World) (n : Z) :
  run str_lower argv w = (w', Ok n) →
  ∃ args, parse_args argv = Some args
    ∧ let files := fs w in
      let sd := resolve files (source_dir args) in
      let dd := resolve files (deployment_dir args) in
      let b := str_lower (lstrip_dot (basis args)) in
      let tp := resolve files (template args) in
      path_exists files tp = true
      ∧ ((n = 1%Z
          ∧ discover files sd b = []
          ∧ w' = mkWorld (fs w) (stdout w ++ [no_source_files_line ("*." ++ b) sd])%list)
         ∨ (n = 0%Z
            ∧ discover files sd b ≠ []
            ∧ ∃ fs1 w1,
                mkdir files dd = (fs1, true)
                ∧ converts_all str_lower sd dd tp (discover files sd b)
                    (mkWorld fs1
                       (stdout w ++ [converting_line (length (discover files sd b)) sd b])%list)
                    w1
                ∧ w' = mkWorld (fs w1) (stdout w1 ++ [finished_line dd])%list)).
Proof.
  destruct (parse_args argv) as [args|] eqn:Hargs;
    [|unfold run, mbind, M_bind, bind, fs_call, call; by rewrite Hargs].
  rewrite (run_unfold argv args w Hargs). cbv zeta.
  intros Hrun. exists args. split; [done|].
  destruct (path_exists _ _); [|done]. split; [done|].
  destruct (discover _ _ _) as [|p ps] eqn:Hd.
  - left. by injection Hrun as <- <-.
  - right. cbv zeta in Hrun.
    destruct (mkdir _ _) as [fs1 [|]] eqn:Hmk; [|done].
    destruct (for_each (p :: ps) _ _) as [w1 [[]|e]] eqn:Hloop; [|done].
    injection Hrun as <- <-. split; [done|]. split; [done|].
    exists fs1, w1. split; [done|]. split; [|done].
    by apply for_each_converts_all.
Qed.

(** X17.  The length of the report.  A run that returns 0 has printed five
    lines for every discovered file and two of its own, after
    whatever was printed before. *)
Theorem run_report_length (argv : option (list string)) (w w' : World) :
  run str_lower argv w = (w', Ok 0%Z) →
  ∃ args, parse_args argv = Some args
    ∧ length (stdout w')
      = (length (stdout w)
         + 5 * length (discover (fs w) (resolve (fs w) (source_dir args))
                         (str_lower (lstrip_dot (basis args))))
         + 2)%nat.
Proof.
  destruct (parse_args argv) as [args|] eqn:Hargs;
    [|unfold run, mbind, M_bind, bind, fs_call, call; by rewrite Hargs].
  rewrite (run_unfold argv args w Hargs). cbv zeta.
  intros Hrun. exists args. split; [done|].
  destruct (path_exists _ _); [|done].
  destruct (discover _ _ _) as [|p ps] eqn:Hd; [done|]. cbv zeta in Hrun.
  destruct (mkdir _ _) as [fs1 [|]] eqn:Hmk; [|done].
  destruct (for_each (p :: ps) _ _) as [w1 [[]|e]] eqn:Hloop; [|done].
  injection Hrun as <-.
  apply for_each_converts_all, converts_all_lines in Hloop. simpl in *.
  rewrite length_app, Hloop, length_app. simpl. lia.
Qed.

(** X18.  The exceptions that leave the driver.  Apart from what the
    libraries raise there are two: FileNotFoundError, only for a missing
    template and with the world as it was; and the loader's ValueError,
    only for a discovered file whose extension is not in the format
    table. *)
Theorem run_raised_exceptions (argv : option (list string)) (w w' : World) (e : exn) :
  run str_lower argv w = (w', Raise e) →
  (∃ origin, e = ExternalError origin)
  ∨ ∃ args, parse_args argv = Some args
      ∧ let files := fs w in
        let sd := resolve files (source_dir args) in
        let b := str_lower (lstrip_dot (basis args)) in
        let tp := resolve files (template args) in
        (e = FileNotFoundError ("Template not found: " ++ tp)
         ∧ path_exists files tp = false ∧ w' = w)
        ∨ (path_exists files tp = true
           ∧ ∃ p, p ∈ discover files sd b
                  ∧ e = unsupported p
                  ∧ detect_format str_lower p = None).
Proof.
  destruct (parse_args argv) as [args|] eqn:Hargs.
  2:{ unfold run, mbind, M_bind, bind, fs_call, call. rewrite Hargs.
      intros [= _ <-]. left. by eexists. }
  rewrite (run_unfold argv args w Hargs). cbv zeta. intros Hrun.
  destruct (path_exists _ _) eqn:Hyes.
  - destruct (discover _ _ _) as [|p ps] eqn:Hd; [done|]. cbv zeta in Hrun.
    destruct (mkdir _ _) as [fs1 [|]] eqn:Hmk;
      [|injection Hrun as _ <-; left; by eexists].
    destruct (for_each (p :: ps) _ _) as [w1 [[]|e']] eqn:Hloop; [done|].
    injection Hrun as <- <-.
    apply for_each_raise_inv in Hloop as (before & x & after & w2 & Hsplit & _ & Hx).
    apply convert_and_report_raise in Hx as [(-> & Hfmt)|Hext]; [|by left].
    right. exists args. split; [done|]. cbv zeta. right. split; [done|].
    exists x. split; [|done]. rewrite Hd, Hsplit. set_solver.
  - injection Hrun as <- <-. right. exists args. split; [done|]. cbv zeta. by left.
Qed.

(** X19.  The first failure ends the run.  When the files before [p] in the
    discovered order convert and the round for [p] raises, the driver
    raises the same exception in the world that round left: the files
    after [p] are not looked at, the final line is not printed, and
    what the earlier rounds wrote stays. *)
Theorem run_aborts_at_first_failure (argv : option (list string)) (args : Namespace)
    (w w1 w2 : World) (fs1 : FS) (before after : list Path) (p : Path) (e : exn) :
  parse_args argv = Some args →
  let files := fs w in
  let sd := resolve files (source_dir args) in
  let dd := resolve files (deployment_dir args) in
  let b := str_lower (lstrip_dot (basis args)) in
  let tp := resolve files (template args) in
  path_exists files tp = true →
  discover files sd b = (before ++ p :: after)%list →
  mkdir files dd = (fs1, true) →
  converts_all str_lower sd dd tp before
    (mkWorld fs1
       (stdout w ++ [converting_line (length (before ++ p :: after)) sd b])%list)
    w1 →
  convert_and_report str_lower sd dd tp p w1 = (w2, Raise e) →
  run str_lower argv w = (w2, Raise e).
Proof.
  intros Hargs files sd dd b tp Hyes Hd Hmk Hall Hfail. subst files sd dd b tp.
  rewrite (run_unfold argv args w Hargs). cbv zeta.
  rewrite Hyes, Hd.
  apply for_each_converts_all in Hall.
  assert (∀ (c1 : World * result Z) (c2 : list Path → World * result Z),
            match (before ++ p :: after)%list with
            | [] => c1
            | q :: qs => c2 (q :: qs)
            end = c2 (before ++ p :: after)%list) as Hcons.
  { intros c1 c2. by destruct before. }
  etrans; [apply (Hcons _ (λ found, _))|]. cbv beta zeta.
  rewrite Hmk, for_each_app, Hall. simpl.
  unfold mbind, M_bind, bind. by rewrite Hfail.
Qed.

(** X20.  Discovery.  Given that the order on paths is a strict total order,
    the discovered list holds exactly what the recursive glob yields,
    arranged in ascending order, and it does not depend on the order in
    which the glob enumerates the directory tree. *)
Theorem discover_sorted (files files' : FS) (source_dir : Path) (basis : string) :
  (∀ a, path_lt a a = false) →
  (∀ a b c, path_lt a b = true → path_lt b c = true → path_lt a c = true) →
  (∀ a b, path_lt a b = false → path_lt b a = false → a = b) →
  discover files source_dir basis ≡ₚ rglob files source_dir ("*." ++ basis)
  ∧ StronglySorted (λ p q, path_lt q p = false) (discover files source_dir basis)
  ∧ (NoDup (rglob files source_dir ("*." ++ basis)) →
     rglob files source_dir ("*." ++ basis) ≡ₚ rglob files' source_dir ("*." ++ basis) →
     discover files source_dir basis = discover files' source_dir basis).
Proof.
  intros Hirrefl Htrans Htotal. unfold discover. split; [|split].
  - by apply py_sort_perm.
  - by apply (py_sort_strongly_sorted path_lt id).
  - intros Hnd Hperm. apply py_sort_perm_eq; try done.
    by rewrite list_fmap_id.
Qed.

(** [n] dots. *)
Fixpoint dots (n : nat) : string :=
  match n with
  | O => ""
  | S n' => String "." (dots n')
  end.

Lemma lstrip_dot_dots n s : lstrip_dot (dots n ++ s) = lstrip_dot s.
Proof. induction n as [|n IH]; simpl; done. Qed.

(** X21.  Leading dots of the basis do not matter: two command lines that
    differ only in dots in front of the basis extension run alike. *)
Theorem run_ignores_leading_dots (argv1 argv2 : option (list string))
    (args1 args2 : Namespace) (n : nat) (w : World) :
  parse_args argv1 = Some args1 →
  parse_args argv2 = Some args2 →
  source_dir args2 = source_dir args1 →
  deployment_dir args2 = deployment_dir args1 →
  template args2 = template args1 →
  basis args2 = dots n ++ basis args1 →
  run str_lower argv2 w = run str_lower argv1 w.
Proof.
  intros H1 H2 Hs Hd Ht Hb.
  unfold run, mbind, M_bind, bind, fs_call, read_fs, call.
  rewrite H1, H2. simpl. by rewrite Hs, Hd, Ht, Hb, lstrip_dot_dots.
Qed.
End driver_more.

(** ** More on the inverse lists *)

Section inverses_more.
Context `{Rdflib}.

(** X11.  The inverse list of a property descriptor holds the compact names
    of the URIs that the graph relates to the subject by owl:inverseOf
    in either direction, and of nothing else; it has one entry for
    each such URI, also for one related in both directions; it is in
    ascending order; and the order in which the set of partners is
    visited does not show in it. *)
Theorem inverses_sorted_without_duplicates (g : Graph) (s : Node) :
  let inverses := PropertyInfo.inverses (property_info g s) in
  StronglySorted str_le inverses
  ∧ length inverses = size (inverses_set g s)
  ∧ (∀ x, x ∈ inverses ↔
          ∃ u, is_URIRef u = true
               ∧ ((s, OWL_inverseOf, u) ∈ triples g ∨ (u, OWL_inverseOf, s) ∈ triples g)
               ∧ x = qname g u)
  ∧ (∀ order, order ≡ₚ elements (inverses_set g s) →
       qname g <$> py_sort str_lt (qname g) order = inverses).
Proof.
  simpl. split; [apply py_sort_str_sorted|]. split; [|split].
  - unfold inverses_of. by rewrite length_fmap, py_sort_perm.
  - intros x. unfold inverses_of. rewrite list_elem_of_fmap. split.
    + intros (u & -> & Hu). exists u.
      rewrite elem_of_py_sort, elem_of_elements, elem_of_inverses_set in Hu.
      by destruct Hu.
    + intros (u & Hu & Hinv & ->). exists u. split; [done|].
      by rewrite elem_of_py_sort, elem_of_elements, elem_of_inverses_set.
  - intros order Hperm.
    by apply (py_sort_keys_perm str_lt (qname g)
                str_lt_irrefl str_lt_trans str_lt_total).
Qed.
End inverses_more.

(** ** The properties at work on the sample inputs *)

Import Ref.

(** Settles a decidable closed proposition by evaluation. *)
Ltac by_compute := apply (bool_decide_unpack _); by vm_compute.

Lemma pair_with_snd {A B} (x : A * B) (b : B) : x.2 = b → x = (x.1, b).
Proof. destruct x. simpl. by intros ->. Qed.

(** C1 on the titles of the sample ontology, and on a list without an
    "en" literal. *)
Lemma literal_by_lang_prefers_en_witness :
  (literal_by_lang [Sample.tagged "Familie" "de"; Sample.tagged "Family" "en"] None).1
  = Some (Sample.tagged "Family" "en")
  ∧ (literal_by_lang [Sample.tagged "Familie" "de"; Sample.tagged "Famille" "fr"] None).1
    = Some (Sample.tagged "Familie" "de").
Proof.
  split.
  - destruct (literal_by_lang_prefers_en
                [Sample.tagged "Familie" "de"; Sample.tagged "Family" "en"])
      as (Hen & _).
    destruct Hen as (r & Hr & Hin & _ & Hlang).
    { exists (Sample.tagged "Family" "en"). split; [|done]. set_solver. }
    rewrite Hr. f_equal.
    apply elem_of_cons in Hin as [->|Hin]; [done|].
    apply elem_of_cons in Hin as [->|Hin]; [done|].
    by apply elem_of_nil in Hin.
  - destruct (literal_by_lang_prefers_en
                [Sample.tagged "Familie" "de"; Sample.tagged "Famille" "fr"])
      as (_ & Hno & _).
    destruct Hno as [Hhead _]; [|exact Hhead].
    intros (v & Hin & _ & Hlang).
    apply elem_of_cons in Hin as [->|Hin]; [done|].
    apply elem_of_cons in Hin as [->|Hin]; [done|].
    by apply elem_of_nil in Hin.
Defined.

(** C2 on the sample ontology: hasParent and hasChild list each other,
    though only hasParent declares the inverse. *)
Lemma inverse_lists_symmetric_witness :
  "ex:hasChild" ∈ PropertyInfo.inverses (property_info Sample.family (Sample.ex "hasParent"))
  ∧ "ex:hasParent" ∈ PropertyInfo.inverses (property_info Sample.family (Sample.ex "hasChild")).
Proof.
  destruct (inverse_lists_symmetric ascii_lower Sample.family
              (Sample.ex "hasParent") (Sample.ex "hasChild")) as (Ha & Hb & _).
  { left. vm_compute. do 8 right. left. }
  split.
  - apply Ha; [|done]. left. vm_compute. do 7 right. left.
  - apply Hb; [|done]. left. vm_compute. do 9 right. left.
Defined.

(** C2 as stated fails when the partner is a blank node: the graph
    holds an inverse-of assertion from the blank node to hasParent,
    hasParent has its descriptor, and the descriptor's inverse list is
    empty. *)
Lemma inverse_list_omits_blank_node :
  (BNode "b0", OWL_inverseOf, Sample.ex "hasParent") ∈ triples Sample.anonymous_inverse
  ∧ collect_properties ascii_lower Sample.anonymous_inverse
    = [property_info Sample.anonymous_inverse (Sample.ex "hasParent")]
  ∧ PropertyInfo.inverses (property_info Sample.anonymous_inverse (Sample.ex "hasParent")) = []
  ∧ qname Sample.anonymous_inverse (BNode "b0")
    ∉ PropertyInfo.inverses (property_info Sample.anonymous_inverse (Sample.ex "hasParent")).
Proof.
  split; [|split; [|split]].
  - vm_compute. right. left.
  - vm_compute. reflexivity.
  - vm_compute. reflexivity.
  - assert (PropertyInfo.inverses
              (property_info Sample.anonymous_inverse (Sample.ex "hasParent")) = [])
      as -> by (vm_compute; reflexivity).
    apply not_elem_of_nil.
Qed.

(** C6 as stated fails for a term under no registered namespace when
    the manager answers it without raising: rdflib's [normalizeUri]
    writes such a term between angle brackets, and [qname] passes that
    on instead of the identifier itself. *)
Lemma qname_unbound_term_in_angle_brackets :
  (∀ b, b ∈ namespaces (namespace_manager Sample.family) →
        String.prefix b.2 (str Sample.unbound_term) = false)
  ∧ qname_result Sample.family Sample.unbound_term = Ok "<http://other.example/Thing>"
  ∧ qname Sample.family Sample.unbound_term ≠ str Sample.unbound_term.
Proof.
  split; [|split].
  - intros b Hb. apply list_elem_of_singleton in Hb as ->. by vm_compute.
  - by vm_compute.
  - by vm_compute.
Qed.

(** C3 on the sample ontology: the descriptor of [age], typed as a
    datatype property only, carries one of the three tags. *)
Lemma property_kind_precedence_witness :
  property_info Sample.family (Sample.ex "age") ∈ collect_properties ascii_lower Sample.family
  ∧ PropertyInfo.kind (property_info Sample.family (Sample.ex "age"))
    ∈ ["ObjectProperty"; "DatatypeProperty"; "Property"].
Proof.
  assert (property_info Sample.family (Sample.ex "age")
          ∈ collect_properties ascii_lower Sample.family) as Hin.
  { vm_compute. left. }
  split; [exact Hin|].
  destruct (property_kind_precedence ascii_lower Sample.family _ Hin)
    as (s & k & _ & _ & _ & _ & Hkind & _).
  exact Hkind.
Defined.

(** C5 on classes labelled "Zebra", "apple" and "APPLE": the lowercased
    labels decide, so both apples come before the zebra although "Z"
    is before "a"; between the apples the compact name decides; and
    the list is the same for another order of visiting the class set. *)
Lemma collect_classes_sorted_deterministic_witness :
  (λ x, (ClassInfo.label x, ClassInfo.qname x)) <$> collect_classes ascii_lower Sample.mixed_case
  = [("APPLE", "ex:A0"); ("apple", "ex:B2"); ("Zebra", "ex:A1")]
  ∧ collect_classes_in ascii_lower Sample.mixed_case
      [Sample.ex "A1"; Sample.ex "B2"; Sample.ex "A0"]
    = collect_classes ascii_lower Sample.mixed_case.
Proof.
  split; [by vm_compute|].
  destruct (collect_classes_sorted_deterministic ascii_lower Sample.mixed_case)
    as (_ & _ & _ & Horder).
  destruct (Horder [Sample.ex "A1"; Sample.ex "B2"; Sample.ex "A0"])
    as [_ Heq].
  - apply NoDup_Permutation.
    + by_compute.
    + apply NoDup_elements.
    + intros x. rewrite elem_of_elements, elem_of_class_subjects.
      rewrite !elem_of_cons, elem_of_nil.
      split.
      * intros [->|[->|[->|[]]]]; by_compute.
      * intros Hx. apply list_elem_of_In in Hx. simpl in Hx.
        destruct_or!; simplify_eq; tauto.
  - apply Heq. by_compute.
Defined.



(** C9 on the reference platform: an upper-case ".TTL" file is parsed
    as Turtle. *)
Lemma load_graph_extension_case_insensitive_witness :
  detect_format ascii_lower "src/FAMILY.TTL" = Some "turtle"
  ∧ load_graph ascii_lower Sample.tree_upper_case "src/FAMILY.TTL"
    = parse_and_bind Sample.tree_upper_case "src/FAMILY.TTL" "turtle".
Proof.
  destruct (load_graph_extension_case_insensitive ascii_lower "src/FAMILY.TTL")
    as (_ & _ & _ & Httl).
  { intros s _. reflexivity. }
  destruct Httl as [Hd Hl]; [by vm_compute|].
  split; [exact Hd|]. apply Hl.
Defined.

(** C10 on the sample ontology: Role is in both lists. *)
Lemma class_and_property_both_collected_witness :
  class_info Sample.family (Sample.ex "Role") ∈ collect_classes ascii_lower Sample.family
  ∧ property_info Sample.family (Sample.ex "Role")
    ∈ collect_properties ascii_lower Sample.family.
Proof.
  destruct (class_and_property_both_collected ascii_lower Sample.family (Sample.ex "Role"))
    as (Hc & Hp & _).
  - vm_compute. do 11 right. left.
  - right. right. vm_compute. do 12 right. left.
  - by split.
Defined.

(** C4 as stated fails on an upper-case extension: ".TTL" is not a key
    of the table, yet the loader does not raise the unsupported-extension
    error; it parses the file as Turtle and returns the graph. *)
Lemma load_graph_accepts_upper_case_extension :
  suffix "src/FAMILY.TTL" = ".TTL"
  ∧ FORMAT_BY_EXT !! ".TTL" = None
  ∧ load_graph ascii_lower Sample.tree_upper_case "src/FAMILY.TTL"
    ≠ Raise (unsupported "src/FAMILY.TTL")
  ∧ ∃ g, load_graph ascii_lower Sample.tree_upper_case "src/FAMILY.TTL" = Ok g
         ∧ triples g = Sample.family_triples.
Proof.
  assert (load_graph ascii_lower Sample.tree_upper_case "src/FAMILY.TTL"
          = Ok (ensure_default_prefix
                  (ensure_common_prefixes (mkGraph Sample.family_triples []))
                  (Some "http://example.org/family"))) as Hload by reflexivity.
  split; [by vm_compute|]. split; [by vm_compute|]. split.
  - by rewrite Hload.
  - eexists. split; [exact Hload|]. reflexivity.
Qed.



(** What a successful run on the sample tree prints, line by line. *)
Example run_prints_report :
  stdout (run ascii_lower Sample.argv (Sample.world_of Sample.tree_with_source [])).1
  = ["Converting 1 ontologies from src using basis '.ttl'...";
     "- zoo/family.ttl";
     "  • ttl: zoo/family.ttl";
     "  • jsonld: zoo/family.jsonld";
     "  • owl: zoo/family.owl";
     "  • html: zoo/family.html";
     "✅ Finished writing artefacts to out"].
Proof. by vm_compute. Qed.

(** The header, the classes and the properties extracted from the
    sample ontology, by their labels. *)
Example sample_catalogue :
  collect_ontology_info Sample.family
  = OntologyHeader.mk (Some "http://example.org/family") (Some "Family") None
  ∧ ClassInfo.qname <$> collect_classes ascii_lower Sample.family
    = ["ex:Animal"; "ex:Plant"; "ex:Role"]
  ∧ (λ d, (PropertyInfo.qname d, PropertyInfo.kind d, PropertyInfo.inverses d))
      <$> collect_properties ascii_lower Sample.family
    = [("ex:age", "DatatypeProperty", []);
       ("ex:hasChild", "ObjectProperty", ["ex:hasParent"]);
       ("ex:hasParent", "ObjectProperty", ["ex:hasChild"]);
       ("ex:Role", "Property", [])].
Proof. split; [by vm_compute|]. split; by vm_compute. Qed.

(** ** The further properties at work on the sample inputs *)

(** One round of the loop on the sample ontology prints its five lines. *)
Lemma convert_and_report_prints_witness :
  ∃ rel r_ttl r_jsonld r_owl r_html,
    Ref.path_relative_to "src/zoo/family.ttl" "src" = Some rel
    ∧ Ref.path_relative_to
        (Ref.path_join (Ref.path_join "out" (Ref.path_parent rel)) (Ref.path_stem rel ++ ".ttl"))
        "out" = Some r_ttl
    ∧ Ref.path_relative_to
        (Ref.path_join (Ref.path_join "out" (Ref.path_parent rel)) (Ref.path_stem rel ++ ".jsonld"))
        "out" = Some r_jsonld
    ∧ Ref.path_relative_to
        (Ref.path_join (Ref.path_join "out" (Ref.path_parent rel)) (Ref.path_stem rel ++ ".owl"))
        "out" = Some r_owl
    ∧ Ref.path_relative_to
        (Ref.path_join (Ref.path_join "out" (Ref.path_parent rel)) (Ref.path_stem rel ++ ".html"))
        "out" = Some r_html
    ∧ stdout (convert_and_report ascii_lower "src" "out" Sample.template_path
                "src/zoo/family.ttl" (Sample.world_of Sample.tree_with_source [])).1
      = ([] ++ [("- " ++ rel)%string;
                ("  • ttl: " ++ r_ttl)%string;
                ("  • jsonld: " ++ r_jsonld)%string;
                ("  • owl: " ++ r_owl)%string;
                ("  • html: " ++ r_html)%string])%list.
Proof.
  apply (convert_and_report_prints ascii_lower "src" "out" Sample.template_path
           "src/zoo/family.ttl" (Sample.world_of Sample.tree_with_source [])).
  apply pair_with_snd. by vm_compute.
Defined.

(** The sample run that returns 0 had files to convert. *)
Lemma run_status_meaning_witness :
  (run ascii_lower Sample.argv (Sample.world_of Sample.tree_with_source [])).2 = Ok 0%Z
  ∧ ∃ args, Ref.read_args Sample.argv = Some args
            ∧ Ref.exists_ Sample.tree_with_source (template args) = true
            ∧ discover Sample.tree_with_source (source_dir args)
                (ascii_lower (lstrip_dot (basis args))) ≠ [].
Proof.
  assert ((run ascii_lower Sample.argv (Sample.world_of Sample.tree_with_source [])).2
          = Ok 0%Z) as Hrun by (by vm_compute).
  split; [exact Hrun|].
  destruct (run_status_meaning ascii_lower Sample.argv
              (Sample.world_of Sample.tree_with_source []) _ 0%Z
              (pair_with_snd _ _ Hrun))
    as (args & Hargs & Htemplate & [(Hone & _)|(_ & Hfound & _)]);
    [discriminate Hone|].
  exists args. split; [exact Hargs|]. split; [exact Htemplate|exact Hfound].
Defined.

(** The report of the sample run: five lines for its one file and two
    of the driver. *)
Lemma run_report_length_witness :
  ∃ args, Ref.read_args Sample.argv = Some args
    ∧ length (stdout (run ascii_lower Sample.argv
                        (Sample.world_of Sample.tree_with_source [])).1)
      = (0 + 5 * length (discover Sample.tree_with_source (source_dir args)
                           (ascii_lower (lstrip_dot (basis args))))
         + 2)%nat.
Proof.
  apply (run_report_length ascii_lower Sample.argv
           (Sample.world_of Sample.tree_with_source [])).
  apply pair_with_snd. by vm_compute.
Defined.

(** Asked for text files, the driver discovers one and the loader
    refuses its extension. *)
Lemma run_raised_exceptions_witness :
  (run ascii_lower Sample.argv_txt (Sample.world_of Sample.tree_with_text [])).2
  = Raise (ValueError "Unsupported input extension for src/readme.txt")
  ∧ "src/readme.txt" ∈ discover Sample.tree_with_text "src" "txt".
Proof.
  assert ((run ascii_lower Sample.argv_txt (Sample.world_of Sample.tree_with_text [])).2
          = Raise (ValueError "Unsupported input extension for src/readme.txt"))
    as Hrun by (by vm_compute).
  split; [exact Hrun|].
  destruct (run_raised_exceptions ascii_lower Sample.argv_txt
              (Sample.world_of Sample.tree_with_text []) _ _
              (pair_with_snd _ _ Hrun))
    as [(origin & Hext)|(args & Hargs & [(Hmissing & _)|(_ & p & Hp & He & _)])];
    [discriminate Hext|discriminate Hmissing|].
  injection Hargs as <-. unfold unsupported in He.
  injection He as He. simpl in He. rewrite He. exact Hp.
Defined.

(** Of three sample sources the second fails in the parser: the run
    ends there, with the outputs of the first in place and none of the
    third. *)
Lemma run_aborts_at_first_failure_witness :
  (run ascii_lower Sample.argv (Sample.world_of Sample.tree_with_broken_source [])).2
  = Raise (ExternalError "Graph.parse")
  ∧ Ref.exists_
      (fs (run ascii_lower Sample.argv (Sample.world_of Sample.tree_with_broken_source [])).1)
      "out/zoo/family.html" = true
  ∧ Ref.exists_
      (fs (run ascii_lower Sample.argv (Sample.world_of Sample.tree_with_broken_source [])).1)
      "out/zoo/plants.ttl" = false.
Proof.
  split; [|split; by vm_compute].
  set (w0 := Sample.world_of (Ref.make_dirs Sample.tree_with_broken_source "out").1
               [converting_line 3 "src" "ttl"]).
  set (w1 := (for_each ["src/zoo/family.ttl"]
                (convert_and_report ascii_lower "src" "out" Sample.template_path) w0).1).
  rewrite (run_aborts_at_first_failure ascii_lower Sample.argv Sample.args
             (Sample.world_of Sample.tree_with_broken_source []) w1
             (convert_and_report ascii_lower "src" "out" Sample.template_path
                "src/zoo/notes.ttl" w1).1
             (Ref.make_dirs Sample.tree_with_broken_source "out").1
             ["src/zoo/family.ttl"] ["src/zoo/plants.ttl"] "src/zoo/notes.ttl"
             (ExternalError "Graph.parse") eq_refl).
  - reflexivity.
  - by vm_compute.
  - by vm_compute.
  - apply pair_with_snd. by vm_compute.
  - apply for_each_converts_all, pair_with_snd. by vm_compute.
  - apply pair_with_snd. by vm_compute.
Defined.

(** The sources of the sample tree are discovered in the order of
    their paths. *)
Lemma discover_sorted_witness :
  StronglySorted (λ p q, str_lt q p = false)
    (discover Sample.tree_with_broken_source "src" "ttl").
Proof.
  apply (@discover_sorted Ref.rdflib Ref.platform
           Sample.tree_with_broken_source Sample.tree_with_broken_source
           "src" "ttl" str_lt_irrefl str_lt_trans str_lt_total).
Defined.

(** The sample run with the basis written ".TTL" is the run with the
    basis written "TTL". *)
Lemma run_ignores_leading_dots_witness :
  run ascii_lower Sample.argv (Sample.world_of Sample.tree_with_source [])
  = run ascii_lower Sample.argv_plain (Sample.world_of Sample.tree_with_source []).
Proof.
  apply (run_ignores_leading_dots ascii_lower Sample.argv_plain Sample.argv
           Sample.args_plain Sample.args 1
           (Sample.world_of Sample.tree_with_source [])); reflexivity.
Defined.

(** The property list of the graph with labels "Zone", "area" and
    "AREA": lowercased labels first, then the compact name; and the
    same list for another order of visiting the property set. *)
Lemma collect_properties_sorted_witness :
  (λ x, (PropertyInfo.label x, PropertyInfo.qname x))
    <$> collect_properties ascii_lower Sample.mixed_case
  = [("AREA", "ex:p0"); ("area", "ex:p2"); ("Zone", "ex:p1")]
  ∧ collect_properties_in ascii_lower Sample.mixed_case
      [Sample.ex "p1"; Sample.ex "p2"; Sample.ex "p0"]
    = collect_properties ascii_lower Sample.mixed_case.
Proof.
  split; [by vm_compute|].
  destruct (collect_properties_sorted ascii_lower Sample.mixed_case) as (_ & Horder).
  destruct (Horder [Sample.ex "p1"; Sample.ex "p2"; Sample.ex "p0"]) as [_ Heq].
  - apply NoDup_Permutation.
    + by_compute.
    + apply NoDup_elements.
    + intros x. rewrite elem_of_elements, elem_of_property_subjects.
      rewrite !elem_of_cons, elem_of_nil. unfold typed_as_property.
      split.
      * intros [->|[->|[->|[]]]]; by_compute.
      * intros [Hx|[Hx|Hx]]; apply list_elem_of_In in Hx; simpl in Hx;
          destruct_or!; simplify_eq; tauto.
  - apply Heq. by_compute.
Defined.
